(** * The Tile integration bootstrapper (homeassistant/components/tile/__init__.py)

    A shallow embedding of the setup / unload lifecycle pair of the Tile
    component: the unique-id migration over the entity registry, the login
    and discovery steps with their error mapping, the per-tile update
    function, the creation of one coordinator per tile, the bounded initial
    refresh and the platform handoff. *)

From stdpp Require Import base option list gmap strings.


Local Open Scope string_scope.
Local Open Scope list_scope.
Set Warnings "-register-all".

(** ** Python string primitives used by the migration step *)

Module PyStr.

(** [s.startswith(p)] *)
Definition startswith (s p : string) : bool := String.prefix p s.

(** [sep.join(parts)] *)
Fixpoint join (sep : string) (parts : list string) : string :=
match parts with
| [] => ""
| [x] => x
| x :: rest => x +:+ sep +:+ join sep rest
end.

(** The scanning loop of [s.split(sep)] for a non-empty [sep]: the head of
  the result is the piece being read.  [skip] counts the characters of a
  separator found at an earlier position that are still to be dropped, so
  matches are taken leftmost and never overlap. *)
Fixpoint split_scan (sep : string) (skip : nat) (s : string) : list string :=
match s with
| EmptyString => [""]
| String c s' =>
    match skip with
    | S k => split_scan sep k s'
    | O =>
        if String.prefix sep s
        then "" :: split_scan sep (Nat.pred (String.length sep)) s'
        else match split_scan sep 0 s' with
             | piece :: pieces => String c piece :: pieces
             | [] => [String c ""]
             end
    end
end.

(** [s.split(sep)]; Python raises ValueError("empty separator") for [""],
  which is [None] here. *)
Definition split (s sep : string) : option (list string) :=
match sep with
| EmptyString => None
| String _ _ => Some (split_scan sep 0 s)
end.

(** [sub in s] *)
Fixpoint contains (s sub : string) : bool :=
String.prefix sub s ||
match s with
| EmptyString => false
| String _ s' => contains s' sub
end.

End PyStr.

(** ** Constants *)

(** Modelled from the spec: [DOMAIN] of [.const], which is not part of the
    sources; the migration comment of [async_setup_entry] gives the old
    unique-id format [tile_{uuid}] for [f"{DOMAIN}_"]. *)
Definition DOMAIN : string := "tile".

Definition PLATFORMS : list string := ["device_tracker"].

Definition DEFAULT_INIT_TASK_LIMIT : nat := 2.

(** [datetime.timedelta], as a whole number of seconds. *)
Definition timedelta (minutes : Z) : Z := (minutes * 60)%Z.

Definition DEFAULT_UPDATE_INTERVAL : Z := timedelta 2.

(** ** Data model *)

(** The config entry: [entry.entry_id], [entry.data[CONF_USERNAME]] and
    [entry.data[CONF_PASSWORD]]. *)
Record ConfigEntry := {
  entry_id : string;
  CONF_USERNAME : string;
  CONF_PASSWORD : string }.

(** An entry of the entity registry.  The registry maps [entity_id] to its
    entry, so the [entity_id] of an entry is the key it is stored under. *)
Record RegistryEntry := {
  unique_id : string;
  config_entry_id : option string }.

(** A tile as returned by the client library. *)
Record Tile := {
  tile_uuid : string;
  tile_name : string }.

(** The API client returned by a successful login. *)
Record Client := { client_username : string }.

(** [pytile.errors]: [InvalidAuthError] and [SessionExpiredError] derive
    from [TileError]; [OtherException] stands for any exception class
    outside that hierarchy. *)
Inductive ErrorClass :=
  | InvalidAuthError
  | SessionExpiredError
  | TileError
  | OtherException.

(** [isinstance(err, TileError)] *)
Definition is_TileError (c : ErrorClass) : bool :=
  match c with
  | OtherException => false
  | _ => true
  end.

(** An exception raised by the client library; [err_str] is [str(err)]. *)
Record ClientError := {
  err_class : ErrorClass;
  err_str : string }.

(** Exceptions that can leave the functions of this module. *)
Inductive Exception :=
  | Upstream (err : ClientError)
  | ConfigEntryNotReady (msg : string) (cause : ClientError)
  | UpdateFailed (msg : string) (cause : ClientError)
  | KeyError (key : string)
  | ValueError (msg : string).

Inductive Result (A : Type) :=
  | Returned (a : A)
  | Raised (e : Exception).
Arguments Returned {A} a.
Arguments Raised {A} e.

(** [update_method=partial(async_update_tile, tile)]: the closure, with the
    [client] it captures from the enclosing setup call and the tile bound by
    [partial]. *)
Record UpdateMethod := {
  bound_client : Client;
  bound_tile : Tile }.

(** The keyword arguments [DataUpdateCoordinator] is built with, and the
    outcome of its last refresh, which a new coordinator has as [True]. *)
Record DataUpdateCoordinator := {
  name : string;
  update_interval : Z;
  update_method : UpdateMethod;
  last_update_success : bool }.

(** Awaited calls into the client library and the host: the suspension
    points of the coroutines. *)
Inductive ExtCall : Type -> Type :=
  | async_login (username password : string) : ExtCall Client
  | async_get_tiles (client : Client) : ExtCall (gmap string Tile)
  | tile_async_update (tile : Tile) : ExtCall unit
  | client_async_init (client : Client) : ExtCall unit
  | async_unload_platforms (entry : ConfigEntry) (platforms : list string)
      : ExtCall bool.

Inductive Reply (R : Type) :=
  | Ok (v : R)
  | Fail (err : ClientError).
Arguments Ok {R} v.
Arguments Fail {R} err.

Inductive LogLevel := DEBUG | INFO | ERROR.

(** What an observer of the process sees, in order. *)
Inductive Event :=
  | EvLog (level : LogLevel) (msg : string) (args : list string)
  | EvUpdateEntity (entity_id new_unique_id : string)
  | EvLogin (username : string)
  | EvGetTiles
  | EvTileUpdate (uuid : string)
  | EvClientInit
  | EvUnloadPlatforms (entry : string)
  | EvCoordinator (uuid : string)
  | EvTaskStart (task : nat)
  | EvTaskSettled (task : nat)
  | EvSetupPlatforms (entry : string) (platforms : list string).

(** The process state the module works on: the entity registry
    ([ent_reg.entities]), the two per-entry mappings of [hass.data[DOMAIN]]
    as [async_setup] creates them, a count of the replies received so far
    and the trace of events. *)
Record World := {
  entities : gmap string RegistryEntry;
  DATA_COORDINATOR : gmap string (gmap string DataUpdateCoordinator);
  DATA_TILE : gmap string (gmap string Tile);
  clock : nat;
  trace : list Event }.

Definition set_entities (f : gmap string RegistryEntry -> gmap string RegistryEntry)
    (w : World) : World :=
  {| entities := f (entities w); DATA_COORDINATOR := DATA_COORDINATOR w;
     DATA_TILE := DATA_TILE w; clock := clock w; trace := trace w |}.

Definition set_coordinators
    (f : gmap string (gmap string DataUpdateCoordinator) ->
         gmap string (gmap string DataUpdateCoordinator))
    (w : World) : World :=
  {| entities := entities w; DATA_COORDINATOR := f (DATA_COORDINATOR w);
     DATA_TILE := DATA_TILE w; clock := clock w; trace := trace w |}.

Definition set_tiles
    (f : gmap string (gmap string Tile) -> gmap string (gmap string Tile))
    (w : World) : World :=
  {| entities := entities w; DATA_COORDINATOR := DATA_COORDINATOR w;
     DATA_TILE := f (DATA_TILE w); clock := clock w; trace := trace w |}.

Definition emit (ev : Event) (w : World) : World :=
  {| entities := entities w; DATA_COORDINATOR := DATA_COORDINATOR w;
     DATA_TILE := DATA_TILE w; clock := clock w; trace := trace w ++ [ev] |}.

Definition tick (w : World) : World :=
  {| entities := entities w; DATA_COORDINATOR := DATA_COORDINATOR w;
     DATA_TILE := DATA_TILE w; clock := S (clock w); trace := trace w |}.

(** ** Coroutines *)

(** An [async def] body: synchronous steps on the process state, awaited
    calls (where the coroutine is suspended until the reply arrives), and
    the bounded gather of a list of coroutines. *)
Inductive Prog (A : Type) : Type :=
  | Ret (a : A)
  | Throw (e : Exception)
  | Step {R : Type} (f : World -> R * World) (k : R -> Prog A)
  | Await {R : Type} (c : ExtCall R) (k : Reply R -> Prog A)
  | Gather (limit : nat) (tasks : list (Prog unit)) (k : Result unit -> Prog A).
Arguments Ret {A} a.
Arguments Throw {A} e.
Arguments Step {A R} f k.
Arguments Await {A R} c k.
Arguments Gather {A} limit tasks k.

Fixpoint bind {A B} (p : Prog A) (f : A -> Prog B) : Prog B :=
  match p with
  | Ret a => f a
  | Throw e => Throw e
  | Step g k => Step g (fun r => bind (k r) f)
  | Await c k => Await c (fun r => bind (k r) f)
  | Gather limit tasks k => Gather limit tasks (fun r => bind (k r) f)
  end.

#[export] Instance Prog_ret : MRet Prog := @Ret.
#[export] Instance Prog_bind : MBind Prog := fun A B f p => bind p f.

(** [try: body except ...: handler]: an exception raised by the handler
    itself is not handled again. *)
Fixpoint try_except {A} (body : Prog A) (handler : Exception -> Prog A) : Prog A :=
  match body with
  | Ret a => Ret a
  | Throw e => handler e
  | Step g k => Step g (fun r => try_except (k r) handler)
  | Await c k => Await c (fun r => try_except (k r) handler)
  | Gather limit tasks k => Gather limit tasks (fun r => try_except (k r) handler)
  end.

Definition of_result {A} (r : Result A) : Prog A :=
  match r with
  | Returned a => Ret a
  | Raised e => Throw e
  end.

Definition get : Prog World := Step (fun w => (w, w)) Ret.

Definition modify (f : World -> World) : Prog unit :=
  Step (fun w => (tt, f w)) Ret.

(** [await call]: a failure of the call is raised at the await. *)
Definition await {R} (c : ExtCall R) : Prog R :=
  Await c (fun r => match r with
                    | Ok v => Ret v
                    | Fail err => Throw (Upstream err)
                    end).

Definition gather_with_concurrency (limit : nat) (tasks : list (Prog unit))
    : Prog unit :=
  Gather limit tasks of_result.

Definition LOGGER (level : LogLevel) (msg : string) (args : list string)
    : Prog unit :=
  modify (emit (EvLog level msg args)).

Fixpoint for_each {A} (items : list A) (body : A -> Prog unit) : Prog unit :=
  match items with
  | [] => Ret tt
  | x :: rest => body x;; for_each rest body
  end.

(** ** The component *)

(** [async_setup]: [hass.data[DOMAIN] = {DATA_COORDINATOR: {}, DATA_TILE: {}}] *)
Definition async_setup : Prog bool :=
  modify (set_coordinators (fun _ => ∅));;
  modify (set_tiles (fun _ => ∅));;
  Ret true.

(** Modelled from the spec: [ent_reg.async_update_entity] of the host's
    entity registry ("update an entity's unique identifier"); the entry
    stored under [entity_id] gets the new unique id, and an unknown
    [entity_id] is a [KeyError].  This is the update as the registry carries
    it out.  The registry of the host can also refuse one and raise, when
    the new unique id is in use; that rule is kept apart, in
    [checked_update_entity] below, and [registry_accepts] tells the
    registries on which it refuses no update of the migration loop.  What is
    proved of the effect of the loop is either stated for those registries,
    or holds whatever the outcome of the loop. *)
Definition async_update_entity (entity_id new_unique_id : string) : Prog unit :=
  Step (fun w =>
          match entities w !! entity_id with
          | Some old =>
              (Returned tt,
               emit (EvUpdateEntity entity_id new_unique_id)
                 (set_entities
                    <[entity_id := {| unique_id := new_unique_id;
                                      config_entry_id := config_entry_id old |}]>
                    w))
          | None => (Raised (KeyError entity_id), w)
          end)
       of_result.

(** The filter of the migration loop: the entities of this entry whose
    unique id does not start with the username. *)
Definition old_format (entry : ConfigEntry) (item : string * RegistryEntry) : bool :=
  bool_decide (config_entry_id item.2 = Some (entry_id entry))
  && negb (PyStr.startswith (unique_id item.2) (CONF_USERNAME entry)).

(** [f"{entry.data[CONF_USERNAME]}_".join(entity.unique_id.split(f"{DOMAIN}_"))] *)
Definition new_unique_id (entry : ConfigEntry) (entity : RegistryEntry)
    : option string :=
  PyStr.join (CONF_USERNAME entry +:+ "_")
    <$> PyStr.split (unique_id entity) (DOMAIN +:+ "_").

(** The body of the migration loop. *)
Definition migrate_entity (entry : ConfigEntry) (item : string * RegistryEntry)
    : Prog unit :=
  match new_unique_id entry item.2 with
  | None => Throw (ValueError "empty separator")
  | Some new_id =>
      LOGGER DEBUG
        "Migrating entity %s from old unique ID '%s' to new unique ID '%s'"
        [item.1; unique_id item.2; new_id];;
      async_update_entity item.1 new_id
  end.

(** The migration step of [async_setup_entry]: the list comprehension is
    evaluated first, then the loop runs over it. *)
Definition migrate_unique_ids (entry : ConfigEntry) : Prog unit :=
  w ← get;
  for_each (List.filter (old_format entry) (map_to_list (entities w)))
           (migrate_entity entry).

(** [async_update_tile], the closure defined inside [async_setup_entry]. *)
Definition async_update_tile (client : Client) (tile : Tile) : Prog unit :=
  try_except
    (await (tile_async_update tile))
    (fun e =>
       match e with
       | Upstream err =>
           match err_class err with
           | SessionExpiredError =>
               LOGGER INFO "Tile session expired; creating a new one" [];;
               await (client_async_init client)
           | c =>
               if is_TileError c
               then Throw (UpdateFailed
                             ("Error while retrieving data: " +:+ err_str err) err)
               else Throw e
           end
       | _ => Throw e
       end).

Definition record_refresh (ok : bool) (c : DataUpdateCoordinator)
    : DataUpdateCoordinator :=
  {| name := name c; update_interval := update_interval c;
     update_method := update_method c; last_update_success := ok |}.

Definition is_returned {A} (r : Result A) : bool :=
  match r with
  | Returned _ => true
  | Raised _ => false
  end.

(** Modelled from the spec: [coordinator.async_refresh()] of the host's
    generic polling coordinator ("suspend until one update cycle completes,
    recording success/failure"): it calls the update method, records on the
    coordinator whether the call raised, and raises nothing itself.  The
    coordinator is the object stored under [entry] and [uuid]. *)
Definition async_refresh (entry uuid : string) (c : DataUpdateCoordinator)
    : Prog unit :=
  r ← try_except
        (async_update_tile (bound_client (update_method c))
                           (bound_tile (update_method c));;
         Ret (Returned tt))
        (fun e => Ret (Raised e));
  modify (set_coordinators (alter (alter (record_refresh (is_returned r)) uuid) entry)).

(** [DataUpdateCoordinator(hass, LOGGER, name=tile.name,
    update_interval=DEFAULT_UPDATE_INTERVAL,
    update_method=partial(async_update_tile, tile))] *)
Definition new_coordinator (client : Client) (tile : Tile) : DataUpdateCoordinator :=
  {| name := tile_name tile;
     update_interval := DEFAULT_UPDATE_INTERVAL;
     update_method := {| bound_client := client; bound_tile := tile |};
     last_update_success := true |}.

(** The loop over [hass.data[DOMAIN][DATA_TILE][entry.entry_id].items()]:
    each round stores a new coordinator under the tile's key and appends its
    refresh coroutine to [coordinator_init_tasks]. *)
Fixpoint create_coordinators (entry : ConfigEntry) (client : Client)
    (items : list (string * Tile)) (coordinator_init_tasks : list (Prog unit))
    : Prog (list (Prog unit)) :=
  match items with
  | [] => Ret coordinator_init_tasks
  | (uuid, tile) :: rest =>
      let coordinator := new_coordinator client tile in
      w ← get;
      match DATA_COORDINATOR w !! entry_id entry with
      | None => Throw (KeyError (entry_id entry))
      | Some _ =>
          modify (fun w => emit (EvCoordinator uuid)
                    (set_coordinators
                       (alter <[uuid := coordinator]> (entry_id entry)) w));;
          create_coordinators entry client rest
            (coordinator_init_tasks
               ++ [async_refresh (entry_id entry) uuid coordinator])
      end
  end.

(** The [try] block of [async_setup_entry] with its two handlers; [None]
    is the [return False] of the first handler. *)
Definition login_and_discover (entry : ConfigEntry) : Prog (option Client) :=
  try_except
    (client ← await (async_login (CONF_USERNAME entry) (CONF_PASSWORD entry));
     tiles ← await (async_get_tiles client);
     modify (set_tiles <[entry_id entry := tiles]>);;
     Ret (Some client))
    (fun e =>
       match e with
       | Upstream err =>
           match err_class err with
           | InvalidAuthError =>
               LOGGER ERROR "Invalid credentials provided" [];;
               Ret None
           | c =>
               if is_TileError c
               then Throw (ConfigEntryNotReady "Error during integration setup" err)
               else Throw e
           end
       | _ => Throw e
       end).

(** The rest of [async_setup_entry] after the [try] block: the coordinators,
    their first refresh, at most [DEFAULT_INIT_TASK_LIMIT] at a time, and
    the platforms. *)
Definition start_coordinators (entry : ConfigEntry) (client : Client) : Prog bool :=
  w ← get;
  match DATA_TILE w !! entry_id entry with
  | None => Throw (KeyError (entry_id entry))
  | Some tiles =>
      coordinator_init_tasks ←
        create_coordinators entry client (map_to_list tiles) [];
      gather_with_concurrency DEFAULT_INIT_TASK_LIMIT coordinator_init_tasks;;
      modify (emit (EvSetupPlatforms (entry_id entry) PLATFORMS));;
      Ret true
  end.

Definition async_setup_entry (entry : ConfigEntry) : Prog bool :=
  modify (set_coordinators <[entry_id entry := ∅]>);;
  modify (set_tiles <[entry_id entry := ∅]>);;
  migrate_unique_ids entry;;
  logged_in ← login_and_discover entry;
  match logged_in with
  | None => Ret false
  | Some client => start_coordinators entry client
  end.

(** [dict.pop(key)] on [hass.data[DOMAIN][DATA_COORDINATOR]] *)
Definition pop_coordinators (key : string) : Prog unit :=
  Step (fun w =>
          match DATA_COORDINATOR w !! key with
          | Some _ => (Returned tt, set_coordinators (delete key) w)
          | None => (Raised (KeyError key), w)
          end)
       of_result.

Definition async_unload_entry (entry : ConfigEntry) : Prog bool :=
  unload_ok ← await (async_unload_platforms entry PLATFORMS);
  (if unload_ok : bool then pop_coordinators (entry_id entry) else Ret tt);;
  Ret unload_ok.

(** ** Execution *)

(** The replies of the client library and of the host to the awaited calls;
    the number is the count of replies delivered before, so that the same
    call can be answered differently over time. *)
Definition Service := forall R : Type, ExtCall R -> nat -> Reply R.

Definition call_event {R} (c : ExtCall R) : Event :=
  match c with
  | async_login username _ => EvLogin username
  | async_get_tiles _ => EvGetTiles
  | tile_async_update tile => EvTileUpdate (tile_uuid tile)
  | client_async_init _ => EvClientInit
  | async_unload_platforms entry _ => EvUnloadPlatforms (entry_id entry)
  end.

(** Where a task of a gather stands. *)
Inductive TaskState :=
  | Waiting (p : Prog unit)
  | InFlight {R : Type} (c : ExtCall R) (k : Reply R -> Prog unit)
  | Settled (r : Result unit)
  | Stuck.

(** Run a coroutine up to its next suspension point.  A gather inside a
    task of a gather is outside the model. *)
Fixpoint advance (p : Prog unit) (w : World) : TaskState * World :=
  match p with
  | Ret a => (Settled (Returned a), w)
  | Throw e => (Settled (Raised e), w)
  | Step f k => let '(r, w') := f w in advance (k r) w'
  | Await c k => (InFlight c k, emit (call_event c) w)
  | Gather _ _ _ => (Stuck, w)
  end.

(** Modelled from the spec: the host's bounded-concurrency gather ("run N
    async tasks with a concurrency ceiling, suspend until all complete").
    Every task first takes one of [limit] permits of a semaphore, runs, and
    gives the permit back when it settles. *)
Record Pool := {
  permits : nat;
  slots : list TaskState;
  world : World }.

Definition is_in_flight (t : TaskState) : bool :=
  match t with
  | InFlight _ _ => true
  | _ => false
  end.

Definition is_settled (t : TaskState) : bool :=
  match t with
  | Settled _ => true
  | _ => false
  end.

Definition is_waiting (t : TaskState) : bool :=
  match t with
  | Waiting _ => true
  | _ => false
  end.

Definition in_flight (pl : Pool) : nat :=
  length (List.filter is_in_flight (slots pl)).

Definition pool_init (limit : nat) (tasks : list (Prog unit)) (w : World) : Pool :=
  {| permits := limit; slots := Waiting <$> tasks; world := w |}.

(** What the event loop can do next: let a waiting task take a permit, or
    deliver the reply an in-flight task is suspended on. *)
Inductive Action :=
  | Start (i : nat)
  | Resume (i : nat).

(** The state of task [i] after it ran to [st] while holding a permit, and
    the number of permits then. *)
Definition land (i : nat) (held : nat) (st : TaskState) (w : World)
    : option (nat * TaskState * World) :=
  match st with
  | Settled r => Some (S held, Settled r, emit (EvTaskSettled i) w)
  | InFlight c k => Some (held, InFlight c k, w)
  | _ => None
  end.

Section Execution.

Context (svc : Service).

Definition pool_step (a : Action) (pl : Pool) : option Pool :=
  match a with
  | Start i =>
      match slots pl !! i, permits pl with
      | Some (Waiting p), S held =>
          let '(st, w) := advance p (emit (EvTaskStart i) (world pl)) in
          '(n, st', w') ← land i held st w;
          Some {| permits := n; slots := <[i := st']> (slots pl); world := w' |}
      | _, _ => None
      end
  | Resume i =>
      match slots pl !! i with
      | Some (InFlight c k) =>
          let '(st, w) :=
            advance (k (svc _ c (clock (world pl)))) (tick (world pl)) in
          '(n, st', w') ← land i (permits pl) st w;
          Some {| permits := n; slots := <[i := st']> (slots pl); world := w' |}
      | _ => None
      end
  end.

(** A schedule is the sequence of choices of the event loop. *)
Fixpoint pool_run (sched : list Action) (pl : Pool) : option Pool :=
  match sched with
  | [] => Some pl
  | a :: rest => pl' ← pool_step a pl; pool_run rest pl'
  end.

Definition all_settled (pl : Pool) : bool := forallb is_settled (slots pl).

(** The first exception among the settled tasks, if any. *)
Fixpoint gather_result (ts : list TaskState) : Result unit :=
  match ts with
  | [] => Returned tt
  | Settled (Raised e) :: _ => Raised e
  | _ :: rest => gather_result rest
  end.

(** The gather returns once every task has settled; [None] when the
    schedule is not one of the pool, or stops before that. *)
Definition run_gather (limit : nat) (tasks : list (Prog unit))
    (sched : list Action) (w : World) : option (Result unit * World) :=
  pl ← pool_run sched (pool_init limit tasks w);
  if all_settled pl then Some (gather_result (slots pl), world pl) else None.

(** Run a coroutine to its end, with nothing else running beside it but
    the tasks of its gather, which follow [sched]. *)
Fixpoint run {A} (sched : list Action) (p : Prog A) (w : World)
    : option (Result A * World) :=
  match p with
  | Ret a => Some (Returned a, w)
  | Throw e => Some (Raised e, w)
  | Step f k => let '(r, w') := f w in run sched (k r) w'
  | Await c k => run sched (k (svc _ c (clock w))) (tick (emit (call_event c) w))
  | Gather limit tasks k =>
      '(r, w') ← run_gather limit tasks sched w;
      run [] (k r) w'
  end.

(** Run a coroutine up to the gather it launches, if it gets there: the
    ceiling, the tasks and the state the gather starts from. *)
Fixpoint run_to_gather {A} (p : Prog A) (w : World)
    : option (nat * list (Prog unit) * World) :=
  match p with
  | Ret _ | Throw _ => None
  | Step f k => let '(r, w') := f w in run_to_gather (k r) w'
  | Await c k =>
      run_to_gather (k (svc _ c (clock w))) (tick (emit (call_event c) w))
  | Gather limit tasks _ => Some (limit, tasks, w)
  end.

End Execution.

(** ** Properties of coroutines used in the proofs *)

(** Permits left and tasks in flight add up to the ceiling. *)
Definition balanced (limit : nat) (pl : Pool) : Prop :=
  permits pl + in_flight pl = limit.

(** No gather inside. *)
Fixpoint sequential {A} (p : Prog A) : Prop :=
  match p with
  | Ret _ | Throw _ => True
  | Step _ k => forall r, sequential (k r)
  | Await _ k => forall r, sequential (k r)
  | Gather _ _ _ => False
  end.

(** The events of the refresh tasks of a gather. *)
Definition task_event (ev : Event) : bool :=
  match ev with
  | EvTaskStart _ | EvTaskSettled _ | EvTileUpdate _ | EvClientInit
  | EvLog INFO _ _ => true
  | _ => false
  end.

(** A coordinator as it was built, whatever its refreshes have recorded. *)
Definition as_built (c : DataUpdateCoordinator) : DataUpdateCoordinator :=
  record_refresh true c.

Definition built (m : gmap string (gmap string DataUpdateCoordinator))
    : gmap string (gmap string DataUpdateCoordinator) :=
  (fun cs : gmap string DataUpdateCoordinator => as_built <$> cs) <$> m.

(** What refresh tasks can make of a state: the registry and the tiles stay,
    the coordinators stay as they were built, and the events [evs], all of
    them events of tasks, are added to the trace. *)
Definition refreshed (w w' : World) (evs : list Event) : Prop :=
  entities w' = entities w
  /\ DATA_TILE w' = DATA_TILE w
  /\ built (DATA_COORDINATOR w') = built (DATA_COORDINATOR w)
  /\ trace w' = trace w ++ evs
  /\ forallb task_event evs = true.

(** Every step of the coroutine does no more than that. *)
Fixpoint refreshing {A} (p : Prog A) : Prop :=
  match p with
  | Ret _ | Throw _ => True
  | Step f k =>
      (forall w, exists evs, refreshed w (f w).2 evs) /\ forall r, refreshing (k r)
  | Await c k => task_event (call_event c) = true /\ forall r, refreshing (k r)
  | Gather _ _ _ => False
  end.

Definition task_ok (st : TaskState) : Prop :=
  match st with
  | Waiting p => refreshing p
  | InFlight _ k => forall r, refreshing (k r)
  | _ => True
  end.

(** The pool of a gather launched in the state [w0]: the trace holds the
    start of every task that is no longer waiting, and the end of every
    task that has settled. *)
Definition pool_ok (w0 : World) (pl : Pool) : Prop :=
  Forall task_ok (slots pl)
  /\ exists evs,
       refreshed w0 (world pl) evs
       /\ forall i st,
            slots pl !! i = Some st ->
            (is_waiting st = false -> EvTaskStart i ∈ evs)
            /\ (is_settled st = true -> EvTaskSettled i ∈ evs).

(** ** What the migration amounts to *)

(** What the migration loop makes of one stored unique id. *)
Definition renamed (entry : ConfigEntry) (old_id : string) : string :=
  PyStr.join (CONF_USERNAME entry +:+ "_")
             (PyStr.split_scan (DOMAIN +:+ "_") 0 old_id).

Definition rename_entity (entry : ConfigEntry) (e : RegistryEntry) : RegistryEntry :=
  {| unique_id := renamed entry (unique_id e);
     config_entry_id := config_entry_id e |}.

(** The registry entry after the migration step. *)
Definition migrated (entry : ConfigEntry) (e : RegistryEntry) : RegistryEntry :=
  if old_format entry ("", e) then rename_entity entry e else e.

Definition migration_events (entry : ConfigEntry)
    (items : list (string * RegistryEntry)) : list Event :=
  items ≫= fun item =>
    [EvLog DEBUG
       "Migrating entity %s from old unique ID '%s' to new unique ID '%s'"
       [item.1; unique_id item.2; renamed entry (unique_id item.2)];
     EvUpdateEntity item.1 (renamed entry (unique_id item.2))].

(** ** The registry of the host, which can refuse an update *)

(** The unique ids stored in a registry. *)
Definition stored_ids (reg : gmap string RegistryEntry) : list string :=
  (fun item => unique_id item.2) <$> map_to_list reg.

Definition in_use (reg : gmap string RegistryEntry) (id : string) : bool :=
  bool_decide (id ∈ stored_ids reg).

(** Modelled from the spec: [ent_reg.async_update_entity] with the rule of
    the host's registry (helpers/entity_registry.py, which is not part of
    the sources): a new unique id that an entity of the same domain and
    platform already has, the entity itself included, is refused with a
    [ValueError], and nothing is changed.  The entries here carry no domain
    and no platform, so every stored unique id counts as in use. *)
Definition checked_update_entity (entity_id new_unique_id : string) : Prog unit :=
  Step (fun w =>
          match entities w !! entity_id with
          | Some old =>
              if in_use (entities w) new_unique_id
              then (Raised (ValueError
                              ("Unique id '" +:+ new_unique_id
                                 +:+ "' is already in use")), w)
              else (Returned tt,
                    emit (EvUpdateEntity entity_id new_unique_id)
                      (set_entities
                         <[entity_id := {| unique_id := new_unique_id;
                                           config_entry_id := config_entry_id old |}]>
                         w))
          | None => (Raised (KeyError entity_id), w)
          end)
       of_result.

(** The migration loop of [async_setup_entry] against that registry. *)
Definition checked_migrate_entity (entry : ConfigEntry)
    (item : string * RegistryEntry) : Prog unit :=
  match new_unique_id entry item.2 with
  | None => Throw (ValueError "empty separator")
  | Some new_id =>
      LOGGER DEBUG
        "Migrating entity %s from old unique ID '%s' to new unique ID '%s'"
        [item.1; unique_id item.2; new_id];;
      checked_update_entity item.1 new_id
  end.

Definition checked_migrate_unique_ids (entry : ConfigEntry) : Prog unit :=
  w ← get;
  for_each (List.filter (old_format entry) (map_to_list (entities w)))
           (checked_migrate_entity entry).

(** The unique ids the migration loop asks the registry for. *)
Definition requested_ids (entry : ConfigEntry) (reg : gmap string RegistryEntry)
    : list string :=
  (fun item => renamed entry (unique_id item.2))
    <$> List.filter (old_format entry) (map_to_list reg).

(** The registries on which no update of the migration loop can be refused,
    in whatever order the registry hands out its entities: the unique ids
    the loop asks for are pairwise different, and none of them is stored in
    the registry. *)
Definition registry_accepts (entry : ConfigEntry) (reg : gmap string RegistryEntry)
    : bool :=
  bool_decide (NoDup (requested_ids entry reg))
  && forallb (fun id => negb (in_use reg id)) (requested_ids entry reg).

(** ** What a failed login or discovery amounts to *)

(** The outcome of the [try] block of [async_setup_entry] when one of its
    two calls fails with [err], in the state [w] after the failed call. *)
Definition failure_outcome (err : ClientError) (w : World)
    : Result (option Client) * World :=
  match err_class err with
  | InvalidAuthError =>
      (Returned None, emit (EvLog ERROR "Invalid credentials provided" []) w)
  | OtherException => (Raised (Upstream err), w)
  | _ => (Raised (ConfigEntryNotReady "Error during integration setup" err), w)
  end.

(** ** What the coordinator loop amounts to *)

(** The refresh coroutines the loop collects, in the order of the items. *)
Definition refresh_tasks (entry : ConfigEntry) (client : Client)
    (items : list (string * Tile)) : list (Prog unit) :=
  (fun item => async_refresh (entry_id entry) item.1 (new_coordinator client item.2))
    <$> items.

(** ** A sample account *)

Module Sample.

Definition tiles : gmap string Tile :=
  {[ "t1" := {| tile_uuid := "t1"; tile_name := "Keys" |};
     "t2" := {| tile_uuid := "t2"; tile_name := "Wallet" |};
     "t3" := {| tile_uuid := "t3"; tile_name := "Bag" |} ]}.

Definition expired : ClientError :=
  {| err_class := SessionExpiredError; err_str := "session expired" |}.

Definition bad_password : ClientError :=
  {| err_class := InvalidAuthError; err_str := "invalid credentials" |}.

Definition unreachable : ClientError :=
  {| err_class := TileError; err_str := "cannot connect" |}.

(** Login and discovery succeed; the first refresh of tile t2 finds the
    session expired. *)
Definition service : Service :=
  fun R c n =>
    match c in ExtCall R return Reply R with
    | async_login username _ => Ok {| client_username := username |}
    | async_get_tiles _ => Ok tiles
    | tile_async_update tile =>
        if decide (tile_uuid tile = "t2") then Fail expired else Ok tt
    | client_async_init _ => Ok tt
    | async_unload_platforms _ _ => Ok true
    end.

(** The service answers every call of the client library with [err]. *)
Definition failing (err : ClientError) : Service :=
  fun R c n =>
    match c in ExtCall R return Reply R with
    | async_unload_platforms _ _ => Ok false
    | _ => Fail err
    end.

(** The session has expired and cannot be renewed. *)
Definition expired_for_good : Service :=
  fun R c n =>
    match c in ExtCall R return Reply R with
    | async_login username _ => Ok {| client_username := username |}
    | async_get_tiles _ => Ok tiles
    | tile_async_update _ => Fail expired
    | client_async_init _ => Fail unreachable
    | async_unload_platforms _ _ => Ok true
    end.

Definition alice : ConfigEntry :=
  {| entry_id := "e1"; CONF_USERNAME := "alice"; CONF_PASSWORD := "pw" |}.

Definition alice_client : Client := {| client_username := "alice" |}.

Definition keys : Tile := {| tile_uuid := "t1"; tile_name := "Keys" |}.

Definition registry : gmap string RegistryEntry :=
  {[ "device_tracker.keys" :=
       {| unique_id := "tile_t1"; config_entry_id := Some "e1" |};
     "device_tracker.bag" :=
       {| unique_id := "alice_t3"; config_entry_id := Some "e1" |};
     "device_tracker.wallet" :=
       {| unique_id := "alice2_t2"; config_entry_id := Some "e1" |};
     "device_tracker.bike" :=
       {| unique_id := "xtile_t4"; config_entry_id := Some "e1" |};
     "device_tracker.car" :=
       {| unique_id := "tile_tile_t5"; config_entry_id := Some "e1" |};
     "sensor.other" :=
       {| unique_id := "tile_t9"; config_entry_id := Some "e2" |} ]}.

Definition world : World :=
  {| entities := registry; DATA_COORDINATOR := ∅; DATA_TILE := ∅;
     clock := 0; trace := [] |}.

(** The tasks are in the order of the tiles' keys in the mapping: t3, t1,
    t2.  Two start, the third starts when one of them has settled. *)
Definition schedule : list Action :=
  [Start 0; Start 1; Resume 1; Start 2; Resume 2; Resume 0; Resume 2].

(** A registry whose entities of the entry have the old or the new
    format. *)
Definition tidy : World :=
  {| entities :=
       {[ "device_tracker.keys" :=
            {| unique_id := "tile_t1"; config_entry_id := Some "e1" |};
          "device_tracker.bag" :=
            {| unique_id := "alice_t3"; config_entry_id := Some "e1" |};
          "sensor.other" :=
            {| unique_id := "other_t9"; config_entry_id := Some "e2" |} ]};
     DATA_COORDINATOR := ∅; DATA_TILE := ∅; clock := 0; trace := [] |}.

(** A registry in which the new unique id of the keys is in use. *)
Definition shared : World :=
  {| entities :=
       {[ "device_tracker.keys" :=
            {| unique_id := "tile_t1"; config_entry_id := Some "e1" |};
          "device_tracker.keys_2" :=
            {| unique_id := "alice_t1"; config_entry_id := Some "e1" |} ]};
     DATA_COORDINATOR := ∅; DATA_TILE := ∅; clock := 0; trace := [] |}.

(** A registry with one entity, whose unique id holds no [tile_]. *)
Definition stubborn : World :=
  {| entities :=
       {[ "device_tracker.bike" :=
            {| unique_id := "bike_t4"; config_entry_id := Some "e1" |} ]};
     DATA_COORDINATOR := ∅; DATA_TILE := ∅; clock := 0; trace := [] |}.

(** An error that is not one of the client library's. *)
Definition crash : ClientError :=
  {| err_class := OtherException; err_str := "connection reset" |}.

(** An account without tiles. *)
Definition no_tiles : Service :=
  fun R c n =>
    match c in ExtCall R return Reply R with
    | async_login username _ => Ok {| client_username := username |}
    | async_get_tiles _ => Ok ∅
    | tile_async_update _ => Ok tt
    | client_async_init _ => Ok tt
    | async_unload_platforms _ _ => Ok true
    end.

(** The state after the entry has been set up. *)
Definition loaded : World :=
  match run service schedule (async_setup_entry alice) world with
  | Some (_, w) => w
  | None => world
  end.

End Sample.

(** * Theorems *)

Example split_ex1 : PyStr.split "tile_abc" "tile_" = Some [""; "abc"].
Proof. reflexivity. Qed.
Example split_ex2 : PyStr.split "a,b,,c" "," = Some ["a"; "b"; ""; "c"].
Proof. reflexivity. Qed.
Example split_ex3 : PyStr.split "aaa" "aa" = Some [""; "a"].
Proof. reflexivity. Qed.
Example split_ex4 : PyStr.split "abc" "x" = Some ["abc"].
Proof. reflexivity. Qed.
Example split_ex5 : PyStr.split "xtile_" "tile_" = Some ["x"; ""].
Proof. reflexivity. Qed.
Example join_ex1 : PyStr.join "alice_" [""; "abc"] = "alice_abc".
Proof. reflexivity. Qed.

(** ** Strings *)

Section Strings.

Import PyStr.

Lemma app_cons c (a b : string) : String c a +:+ b = String c (a +:+ b).
Proof. reflexivity. Qed.

Lemma app_empty (s : string) : "" +:+ s = s.
Proof. reflexivity. Qed.

Lemma prefix_app (p s : string) : String.prefix p (p +:+ s) = true.
Proof.
  induction p as [|c p IH].
  - by destruct s.
  - rewrite app_cons. simpl.
    destruct (Ascii.ascii_dec c c); [exact IH | congruence].
Qed.

Lemma prefix_split (p s : string) :
  String.prefix p s = true -> exists rest, s = p +:+ rest.
Proof.
  revert s. induction p as [|c p IH]; intros s H.
  - by exists s.
  - destruct s as [|d s]; simpl in H; [done |].
    destruct (Ascii.ascii_dec c d) as [-> | ]; [| done].
    destruct (IH _ H) as [rest ->]. by exists rest.
Qed.

Lemma startswith_app (p s : string) : startswith (p +:+ s) p = true.
Proof. apply prefix_app. Qed.

Lemma app_assoc_str (a b c : string) : (a +:+ b) +:+ c = a +:+ (b +:+ c).
Proof.
  induction a as [|x a IH]; [done |].
  rewrite !app_cons. by rewrite IH.
Qed.

(** A prefix of a prefix. *)
Lemma startswith_weaken (s p q : string) :
  startswith s (p +:+ q) = true -> startswith s p = true.
Proof.
  unfold startswith. intros H.
  destruct (prefix_split _ _ H) as [rest ->].
  rewrite app_assoc_str. apply prefix_app.
Qed.

Lemma split_scan_nonempty sep skip s : split_scan sep skip s <> [].
Proof.
  revert skip. induction s as [|c s IH]; intros skip; cbn [split_scan]; [done |].
  destruct skip; [| apply IH].
  destruct (String.prefix sep (String c s)); [done |].
  by destruct (split_scan sep 0 s).
Qed.

(** Dropping the rest of a separator. *)
Lemma split_scan_skip sep a s :
  split_scan sep (String.length a) (a +:+ s) = split_scan sep 0 s.
Proof. induction a as [|c a IH]; [done | rewrite app_cons; exact IH]. Qed.

Lemma split_scan_sep c sep s :
  split_scan (String c sep) 0 (String c sep +:+ s)
  = "" :: split_scan (String c sep) 0 s.
Proof.
  rewrite app_cons. cbn [split_scan].
  rewrite <- app_cons, prefix_app. cbn [String.length Nat.pred].
  by rewrite split_scan_skip.
Qed.

Lemma split_scan_absent c sep s :
  contains s (String c sep) = false -> split_scan (String c sep) 0 s = [s].
Proof.
  induction s as [|d s IH]; intros H; [done |].
  cbn [contains] in H. apply orb_false_elim in H as [Hp Hc].
  cbn [split_scan]. rewrite Hp, (IH Hc). done.
Qed.

Lemma join_cons_empty sep parts :
  parts <> [] -> join sep ("" :: parts) = sep +:+ join sep parts.
Proof. by destruct parts. Qed.

(** Splitting on a separator of the form [x ++ "_"] never fails. *)
Lemma split_nonempty_sep s x :
  split s (x +:+ "_") = Some (split_scan (x +:+ "_") 0 s).
Proof. by destruct x. Qed.

Lemma sep_is_cons x : exists c sep, x +:+ "_" = String c sep.
Proof. destruct x; [rewrite app_empty | rewrite app_cons]; eauto. Qed.

End Strings.

(** ** The migration step *)

Lemma new_unique_id_renamed entry entity :
  new_unique_id entry entity = Some (renamed entry (unique_id entity)).
Proof. unfold new_unique_id. by rewrite split_nonempty_sep. Qed.

(** A unique id of the old format gets the username in place of the domain,
    and every further occurrence of the domain prefix is replaced too. *)
Lemma renamed_old_format entry uuid :
  renamed entry (DOMAIN +:+ "_" +:+ uuid)
  = CONF_USERNAME entry +:+ "_" +:+ renamed entry uuid.
Proof.
  unfold renamed. destruct (sep_is_cons DOMAIN) as (c & sep & E).
  rewrite <- app_assoc_str, E, split_scan_sep, join_cons_empty.
  - by rewrite app_assoc_str.
  - apply split_scan_nonempty.
Qed.

Lemma renamed_absent entry s :
  PyStr.contains s (DOMAIN +:+ "_") = false -> renamed entry s = s.
Proof.
  unfold renamed. destruct (sep_is_cons DOMAIN) as (c & sep & E).
  rewrite E. intros H. by rewrite split_scan_absent.
Qed.

(** ** Running coroutines *)

Lemma sequential_bind {A B} (p : Prog A) (f : A -> Prog B) :
  sequential p -> (forall a, sequential (f a)) -> sequential (p ≫= f).
Proof.
  intros Hp Hf. revert B f Hp Hf.
  induction p as [A a | A e | A R g k IH | A R c k IH | A limit tasks k IH];
    intros B f Hp Hf; cbn in *; auto.
  - intros r. apply IH; auto.
  - intros r. apply IH; auto.
Qed.

Lemma sequential_try_except {A} (p : Prog A) (h : Exception -> Prog A) :
  sequential p -> (forall e, sequential (h e)) -> sequential (try_except p h).
Proof.
  intros Hp Hh.
  induction p as [A a | A e | A R g k IH | A R c k IH | A limit tasks k IH];
    cbn in *; auto.
Qed.

Lemma sequential_of_result {A} (r : Result A) : sequential (of_result r).
Proof. by destruct r. Qed.

Lemma sequential_modify f : sequential (modify f).
Proof. by intros r. Qed.

Lemma sequential_await {R} (c : ExtCall R) : sequential (await c).
Proof. by intros [v | err]. Qed.

Lemma sequential_LOGGER level msg args : sequential (LOGGER level msg args).
Proof. apply sequential_modify. Qed.

Lemma sequential_async_update_entity entity_id new_id :
  sequential (async_update_entity entity_id new_id).
Proof. intros r. apply sequential_of_result. Qed.

Lemma sequential_migrate_entity entry item : sequential (migrate_entity entry item).
Proof.
  unfold migrate_entity. destruct (new_unique_id entry item.2); [| done].
  apply sequential_bind; [apply sequential_LOGGER |].
  intros _. apply sequential_async_update_entity.
Qed.

Lemma sequential_for_each {A} (items : list A) (body : A -> Prog unit) :
  (forall x, sequential (body x)) -> sequential (for_each items body).
Proof.
  intros Hb. induction items as [|x items IH]; [done |].
  cbn [for_each]. apply sequential_bind; auto.
Qed.

Lemma sequential_async_update_tile client tile :
  sequential (async_update_tile client tile).
Proof.
  apply sequential_try_except; [apply sequential_await |].
  intros [err | | | |]; try exact I.
  destruct (err_class err); try exact I.
  apply sequential_bind; [apply sequential_LOGGER |].
  intros _. apply sequential_await.
Qed.

Lemma sequential_login_and_discover entry : sequential (login_and_discover entry).
Proof.
  apply sequential_try_except.
  - apply sequential_bind; [apply sequential_await | intros client].
    apply sequential_bind; [apply sequential_await | intros tiles].
    apply sequential_bind; [apply sequential_modify | done].
  - intros [err | | | |]; try exact I.
    destruct (err_class err); try exact I.
    apply sequential_bind; [apply sequential_LOGGER | done].
Qed.

Section Running.

Context (svc : Service).

(** A coroutine without a gather runs to its end whatever the schedule. *)
Lemma run_sequential {A} (p : Prog A) sched w :
  sequential p -> exists r w', run svc sched p w = Some (r, w').
Proof.
  revert w.
  induction p as [A a | A e | A R g k IH | A R c k IH | A limit tasks k IH];
    intros w Hp; cbn in *; eauto.
  - destruct (g w) as [r w']. eauto.
  - done.
Qed.

Lemma run_sequential_sched {A} (p : Prog A) sched sched' w :
  sequential p -> run svc sched p w = run svc sched' p w.
Proof.
  revert w.
  induction p as [A a | A e | A R g k IH | A R c k IH | A limit tasks k IH];
    intros w Hp; cbn in *; eauto.
  - destruct (g w) as [r w']. eauto.
  - done.
Qed.

Lemma run_bind {A B} (p : Prog A) (f : A -> Prog B) sched w :
  sequential p ->
  run svc sched (p ≫= f) w
  = match run svc sched p w with
    | Some (Returned a, w') => run svc sched (f a) w'
    | Some (Raised e, w') => Some (Raised e, w')
    | None => None
    end.
Proof.
  revert B f w.
  induction p as [A a | A e | A R g k IH | A R c k IH | A limit tasks k IH];
    intros B f w Hp; cbn in *; auto.
  - destruct (g w) as [r w']. by apply IH.
  - by apply IH.
  - done.
Qed.

Lemma run_to_gather_bind {A B} (p : Prog A) (f : A -> Prog B) sched w :
  sequential p ->
  run_to_gather svc (p ≫= f) w
  = match run svc sched p w with
    | Some (Returned a, w') => run_to_gather svc (f a) w'
    | _ => None
    end.
Proof.
  revert B f w.
  induction p as [A a | A e | A R g k IH | A R c k IH | A limit tasks k IH];
    intros B f w Hp; cbn in *; auto.
  - destruct (g w) as [r w']. by apply IH.
  - by apply IH.
  - done.
Qed.

Lemma run_modify f sched w : run svc sched (modify f) w = Some (Returned tt, f w).
Proof. reflexivity. Qed.

Lemma run_get sched w : run svc sched get w = Some (Returned w, w).
Proof. reflexivity. Qed.

Lemma run_LOGGER level msg args sched w :
  run svc sched (LOGGER level msg args) w
  = Some (Returned tt, emit (EvLog level msg args) w).
Proof. reflexivity. Qed.

Lemma run_await {R} (c : ExtCall R) sched w :
  run svc sched (await c) w
  = Some (match svc R c (clock w) with
          | Ok v => Returned v
          | Fail err => Raised (Upstream err)
          end, tick (emit (call_event c) w)).
Proof. cbn. by destruct (svc R c (clock w)). Qed.

End Running.

(** ** Maps built by loops *)

Lemma NoDup_fst_filter {A} (P : string * A -> bool) (l : list (string * A)) :
  NoDup l.*1 -> NoDup (List.filter P l).*1.
Proof.
  induction l as [|x l IH]; [done |].
  rewrite fmap_cons, NoDup_cons. intros [Hx Hl]. cbn [List.filter].
  destruct (P x); [| by apply IH].
  rewrite fmap_cons, NoDup_cons. split; [| by apply IH].
  intros Hin. apply Hx.
  apply list_elem_of_fmap in Hin as (y & -> & Hy).
  apply list_elem_of_fmap. exists y. split; [done |].
  apply list_elem_of_In, filter_In in Hy as [Hy _]. by apply list_elem_of_In.
Qed.

(** Storing [f] of every item of a list with distinct keys, one after the
    other. *)
Lemma foldl_insert_lookup {A B} (f : A -> B) (l : list (string * A)) :
  NoDup l.*1 ->
  forall (m : gmap string B) (k : string),
    foldl (fun m item => <[item.1 := f item.2]> m) m l !! k
    = match (list_to_map l : gmap string A) !! k with
      | Some a => Some (f a)
      | None => m !! k
      end.
Proof.
  induction l as [|[k0 a0] l IH]; intros Hnd m k; [done |].
  rewrite fmap_cons, NoDup_cons in Hnd. destruct Hnd as [Hk0 Hl].
  cbn [foldl list_to_map foldr]. rewrite IH by done.
  cbn [fst snd]. destruct (decide (k = k0)) as [-> | Hne].
  - rewrite (not_elem_of_list_to_map_1 l k0) by done.
    by rewrite !lookup_insert_eq.
  - rewrite (lookup_insert_ne (list_to_map l)) by done.
    destruct (list_to_map l !! k); [done |]. by rewrite lookup_insert_ne.
Qed.

Lemma foldl_insert_map_to_list {A B} (f : A -> B) (m : gmap string A) :
  foldl (fun acc item => <[item.1 := f item.2]> acc) ∅ (map_to_list m) = f <$> m.
Proof.
  apply map_eq. intros k.
  rewrite foldl_insert_lookup by apply NoDup_fst_map_to_list.
  rewrite list_to_map_to_list, lookup_fmap, lookup_empty.
  by destruct (m !! k).
Qed.

(** ** The migration loop when the registry carries out every update *)

Section Migration.

Context (svc : Service) (entry : ConfigEntry).

Lemma run_migrate_entity sched w k e :
  entities w !! k = Some e ->
  run svc sched (migrate_entity entry (k, e)) w
  = Some (Returned tt,
          emit (EvUpdateEntity k (renamed entry (unique_id e)))
            (set_entities <[k := rename_entity entry e]>
               (emit (EvLog DEBUG
                        "Migrating entity %s from old unique ID '%s' to new unique ID '%s'"
                        [k; unique_id e; renamed entry (unique_id e)]) w))).
Proof.
  intros Hk. unfold migrate_entity. cbn [fst snd].
  rewrite new_unique_id_renamed.
  rewrite run_bind by apply sequential_LOGGER. rewrite run_LOGGER.
  cbn. by rewrite Hk.
Qed.

Lemma run_migration_loop sched l :
  NoDup l.*1 ->
  forall w,
    (forall k e, (k, e) ∈ l -> entities w !! k = Some e) ->
    exists w',
      run svc sched (for_each l (migrate_entity entry)) w = Some (Returned tt, w')
      /\ entities w'
         = foldl (fun m item => <[item.1 := rename_entity entry item.2]> m)
                 (entities w) l
      /\ DATA_COORDINATOR w' = DATA_COORDINATOR w
      /\ DATA_TILE w' = DATA_TILE w
      /\ clock w' = clock w
      /\ trace w' = trace w ++ migration_events entry l.
Proof.
  induction l as [|[k e] l IH]; intros Hnd w Hw.
  - exists w. cbn. by rewrite app_nil_r.
  - rewrite fmap_cons, NoDup_cons in Hnd. destruct Hnd as [Hk Hl].
    cbn [for_each]. rewrite run_bind by apply sequential_migrate_entity.
    rewrite (run_migrate_entity _ _ k e) by (apply Hw; left).
    match goal with |- context [run _ _ _ ?x] => set (w1 := x) end.
    destruct (IH Hl w1) as (w' & Hrun & He & Hc & Ht & Hclk & Htr).
    { intros k' e' Hin. subst w1. cbn.
      rewrite lookup_insert_ne; [apply Hw; by right |].
      intros ->. apply Hk. apply list_elem_of_fmap. by exists (k', e'). }
    exists w'. split; [done |]. rewrite He, Hc, Ht, Hclk, Htr. subst w1. cbn.
    repeat split. by rewrite <- !app_assoc.
Qed.

(** The migration step as a whole: every entity of the registry is
    replaced by its [migrated] form, and nothing else changes but the
    trace. *)
Lemma run_migrate_unique_ids sched w :
  exists w',
    run svc sched (migrate_unique_ids entry) w = Some (Returned tt, w')
    /\ entities w' = migrated entry <$> entities w
    /\ DATA_COORDINATOR w' = DATA_COORDINATOR w
    /\ DATA_TILE w' = DATA_TILE w
    /\ clock w' = clock w
    /\ trace w'
       = trace w ++ migration_events entry
                      (List.filter (old_format entry) (map_to_list (entities w))).
Proof.
  unfold migrate_unique_ids. cbn.
  set (l := List.filter (old_format entry) (map_to_list (entities w))).
  assert (Hnd : NoDup l.*1) by apply NoDup_fst_filter, NoDup_fst_map_to_list.
  assert (Hin : forall k e, (k, e) ∈ l <->
                  entities w !! k = Some e /\ old_format entry (k, e) = true).
  { intros k e. unfold l.
    rewrite list_elem_of_In, filter_In, <- list_elem_of_In, elem_of_map_to_list.
    done. }
  destruct (run_migration_loop sched l Hnd w) as (w' & Hrun & He & Hrest).
  { intros k e Hke. by apply Hin in Hke as [? _]. }
  exists w'. split; [exact Hrun |]. split; [| exact Hrest].
  rewrite He. apply map_eq. intros k.
  rewrite (foldl_insert_lookup (rename_entity entry)) by done.
  rewrite lookup_fmap. unfold migrated.
  destruct (list_to_map l !! k) as [e |] eqn:Hl.
  - apply elem_of_list_to_map_2, Hin in Hl as [Hk Hold].
    change (old_format entry ("", e) = true) in Hold.
    rewrite Hk. cbn. by rewrite Hold.
  - destruct (entities w !! k) as [e |] eqn:Hk; [| done]. cbn.
    destruct (old_format entry ("", e)) eqn:Hold; [| done].
    exfalso. apply (not_elem_of_list_to_map_2 _ _ Hl).
    apply list_elem_of_fmap. exists (k, e). split; [done |].
    apply Hin. done.
Qed.

End Migration.

(** ** The migration loop against a registry that refuses ids in use *)

Lemma elem_of_stored_ids (reg : gmap string RegistryEntry) id :
  id ∈ stored_ids reg <-> exists k e, reg !! k = Some e /\ unique_id e = id.
Proof.
  unfold stored_ids. rewrite list_elem_of_fmap. split.
  - intros ([k e] & -> & Hin). apply elem_of_map_to_list in Hin. eauto.
  - intros (k & e & Hk & <-). exists (k, e). split; [done |].
    by apply elem_of_map_to_list.
Qed.

Lemma sequential_checked_migrate_entity entry item :
  sequential (checked_migrate_entity entry item).
Proof.
  unfold checked_migrate_entity. destruct (new_unique_id entry item.2); [| done].
  apply sequential_bind; [apply sequential_LOGGER |].
  intros _ r. apply sequential_of_result.
Qed.

Lemma selected_spec entry (reg : gmap string RegistryEntry) k e :
  (k, e) ∈ List.filter (old_format entry) (map_to_list reg)
  <-> reg !! k = Some e /\ old_format entry (k, e) = true.
Proof.
  by rewrite list_elem_of_In, filter_In, <- list_elem_of_In, elem_of_map_to_list.
Qed.

Section Refusing.

Context (svc : Service) (entry : ConfigEntry).

(** One round of the loop: the update is refused, after the log entry, or
    it is carried out. *)
Lemma run_checked_migrate_entity sched w k e :
  entities w !! k = Some e ->
  run svc sched (checked_migrate_entity entry (k, e)) w
  = if in_use (entities w) (renamed entry (unique_id e))
    then Some (Raised (ValueError
                         ("Unique id '" +:+ renamed entry (unique_id e)
                            +:+ "' is already in use")),
               emit (EvLog DEBUG
                       "Migrating entity %s from old unique ID '%s' to new unique ID '%s'"
                       [k; unique_id e; renamed entry (unique_id e)]) w)
    else run svc sched (migrate_entity entry (k, e)) w.
Proof.
  intros Hk. unfold checked_migrate_entity, migrate_entity. cbn [fst snd].
  rewrite new_unique_id_renamed.
  rewrite !run_bind by apply sequential_LOGGER. rewrite run_LOGGER.
  cbn -[in_use]. rewrite Hk. by destruct (in_use _ _).
Qed.

(** The loop, wherever it stops: the entities [done] have been renamed, the
    first of [rest], if any, has been refused. *)
Lemma run_checked_loop sched l :
  NoDup l.*1 ->
  forall w,
    (forall k e, (k, e) ∈ l -> entities w !! k = Some e) ->
    exists r w' done rest evs,
      run svc sched (for_each l (checked_migrate_entity entry)) w = Some (r, w')
      /\ l = done ++ rest
      /\ match r with
         | Returned _ => rest = []
         | Raised x => exists msg, x = ValueError msg
         end
      /\ (forall k,
            entities w' !! k
            = match (list_to_map done : gmap string RegistryEntry) !! k with
              | Some e => Some (rename_entity entry e)
              | None => entities w !! k
              end)
      /\ (forall k e, (k, e) ∈ done -> renamed entry (unique_id e) <> unique_id e)
      /\ DATA_COORDINATOR w' = DATA_COORDINATOR w
      /\ DATA_TILE w' = DATA_TILE w
      /\ clock w' = clock w
      /\ trace w' = trace w ++ evs
      /\ (forall k id,
            EvUpdateEntity k id ∈ evs
            <-> exists e, (k, e) ∈ done /\ id = renamed entry (unique_id e)).
Proof.
  induction l as [|[k e] l IH]; intros Hkeys w Hw.
  - exists (Returned tt), w, [], [], []. cbn. rewrite app_nil_r.
    repeat split; try done.
    + intros k e H. by apply elem_of_nil in H.
    + intros H. by apply elem_of_nil in H.
    + intros (e & H & _). by apply elem_of_nil in H.
  - rewrite fmap_cons, NoDup_cons in Hkeys. destruct Hkeys as [Hk Hkeys].
    assert (Hhead : (k, e) ∈ (k, e) :: l) by (apply elem_of_cons; by left).
    cbn [for_each]. rewrite run_bind by apply sequential_checked_migrate_entity.
    rewrite (run_checked_migrate_entity sched w k e (Hw k e Hhead)).
    destruct (in_use (entities w) (renamed entry (unique_id e))) eqn:Huse.
    + eexists (Raised _), _, [], ((k, e) :: l), [_].
      split; [reflexivity |]. split; [done |]. split; [by eexists |].
      split; [by intros k2 |].
      split; [intros k2 e2 H; by apply elem_of_nil in H |].
      split; [done |]. split; [done |]. split; [done |]. split; [done |].
      intros k2 id. split.
      * intros H. apply elem_of_cons in H as [H | H]; [discriminate |].
        by apply elem_of_nil in H.
      * intros (e2 & H & _). by apply elem_of_nil in H.
    + rewrite (run_migrate_entity svc entry sched w k e (Hw k e Hhead)).
      match goal with |- context [run _ _ _ ?x] => set (w1 := x) end.
      destruct (IH Hkeys w1)
        as (r & w' & done & rest & evs & Hrun & Hl & Hr & He & Hdone
            & Hc & Ht & Hclk & Htr & Hev).
      { intros k' e' Hin. subst w1. cbn.
        rewrite lookup_insert_ne; [apply Hw, elem_of_cons; by right |].
        intros ->. apply Hk. apply list_elem_of_fmap. by exists (k', e'). }
      exists r, w', ((k, e) :: done), rest,
        (EvLog DEBUG
           "Migrating entity %s from old unique ID '%s' to new unique ID '%s'"
           [k; unique_id e; renamed entry (unique_id e)]
         :: EvUpdateEntity k (renamed entry (unique_id e)) :: evs).
      split; [exact Hrun |]. split; [by rewrite Hl |]. split; [exact Hr |].
      split.
      { intros k2. rewrite He. cbn [list_to_map foldr fst snd].
        destruct (decide (k = k2)) as [<- | Hne].
        - rewrite lookup_insert_eq. rewrite (not_elem_of_list_to_map_1 done k).
          + subst w1. cbn. by rewrite lookup_insert_eq.
          + intros Hin. apply Hk. rewrite Hl, fmap_app. apply elem_of_app.
            by left.
        - rewrite lookup_insert_ne by done.
          destruct (list_to_map done !! k2); [done |].
          subst w1. cbn. by rewrite lookup_insert_ne. }
      split.
      { intros k2 e2 [[= -> ->] | Hin]%elem_of_cons; [| by apply (Hdone k2)].
        intros Hsame. apply bool_decide_eq_false in Huse. apply Huse.
        rewrite Hsame. apply elem_of_stored_ids. exists k, e.
        split; [by apply Hw | done]. }
      split; [by rewrite Hc |]. split; [by rewrite Ht |].
      split; [by rewrite Hclk |].
      split; [rewrite Htr; subst w1; cbn; by rewrite <- !app_assoc |].
      intros k2 id. split.
      * intros H. apply elem_of_cons in H as [H | H]; [discriminate |].
        apply elem_of_cons in H as [[= -> ->] | H].
        -- exists e. split; [by apply elem_of_cons; left | done].
        -- apply Hev in H as (e2 & Hin & ->). exists e2.
           split; [by apply elem_of_cons; right | done].
      * intros (e2 & [[= -> ->] | Hin]%elem_of_cons & ->).
        -- apply elem_of_cons. right. apply elem_of_cons. by left.
        -- apply elem_of_cons. right. apply elem_of_cons. right.
           apply Hev. by exists e2.
Qed.

Lemma checked_migrate_unique_ids_unfold sched w :
  run svc sched (checked_migrate_unique_ids entry) w
  = run svc sched
      (for_each (List.filter (old_format entry) (map_to_list (entities w)))
                (checked_migrate_entity entry)) w.
Proof. reflexivity. Qed.

(** The migration step against that registry, whatever its outcome. *)
Lemma run_checked_migrate_unique_ids sched w :
  exists r w' done rest evs,
    run svc sched (checked_migrate_unique_ids entry) w = Some (r, w')
    /\ List.filter (old_format entry) (map_to_list (entities w)) = done ++ rest
    /\ match r with
       | Returned _ => rest = []
       | Raised x => exists msg, x = ValueError msg
       end
    /\ (forall k,
          entities w' !! k
          = match (list_to_map done : gmap string RegistryEntry) !! k with
            | Some e => Some (rename_entity entry e)
            | None => entities w !! k
            end)
    /\ (forall k e, (k, e) ∈ done -> renamed entry (unique_id e) <> unique_id e)
    /\ DATA_COORDINATOR w' = DATA_COORDINATOR w
    /\ DATA_TILE w' = DATA_TILE w
    /\ clock w' = clock w
    /\ trace w' = trace w ++ evs
    /\ (forall k id,
          EvUpdateEntity k id ∈ evs
          <-> exists e, (k, e) ∈ done /\ id = renamed entry (unique_id e)).
Proof.
  rewrite checked_migrate_unique_ids_unfold. apply run_checked_loop.
  - apply NoDup_fst_filter, NoDup_fst_map_to_list.
  - intros k e Hin. by apply selected_spec in Hin as [Hin _].
Qed.

(** With ids that are free and stay free, no round is refused. *)
Lemma run_checked_loop_free sched l :
  NoDup l.*1 ->
  NoDup ((fun item : string * RegistryEntry => renamed entry (unique_id item.2))
           <$> l) ->
  forall w,
    (forall k e, (k, e) ∈ l -> entities w !! k = Some e) ->
    (forall k e, (k, e) ∈ l ->
                 in_use (entities w) (renamed entry (unique_id e)) = false) ->
    run svc sched (for_each l (checked_migrate_entity entry)) w
    = run svc sched (for_each l (migrate_entity entry)) w.
Proof.
  induction l as [|[k e] l IH]; intros Hkeys Hids w Hw Hfree; [done |].
  rewrite fmap_cons, NoDup_cons in Hkeys. destruct Hkeys as [Hk Hkeys].
  rewrite fmap_cons, NoDup_cons in Hids. destruct Hids as [Hid Hids].
  cbn [for_each].
  rewrite run_bind by apply sequential_checked_migrate_entity.
  rewrite (run_bind _ (migrate_entity entry (k, e)))
    by apply sequential_migrate_entity.
  assert (Hhead : (k, e) ∈ (k, e) :: l) by (apply elem_of_cons; by left).
  rewrite (run_checked_migrate_entity sched w k e (Hw k e Hhead)).
  rewrite (Hfree k e Hhead).
  rewrite (run_migrate_entity svc entry sched w k e (Hw k e Hhead)).
  apply IH; [done | done | |].
  - intros k' e' Hin. cbn.
    rewrite lookup_insert_ne; [apply Hw, elem_of_cons; by right |].
    intros ->. apply Hk. apply list_elem_of_fmap. by exists (k', e').
  - intros k' e' Hin. cbn. apply bool_decide_eq_false.
    intros (k2 & e2 & Hk2 & Hsame)%elem_of_stored_ids.
    destruct (decide (k = k2)) as [<- | Hne].
    + rewrite lookup_insert_eq in Hk2. injection Hk2 as <-. cbn in Hsame.
      apply Hid. apply list_elem_of_fmap. by exists (k', e').
    + rewrite lookup_insert_ne in Hk2 by done.
      assert (Hfree' : in_use (entities w) (renamed entry (unique_id e')) = false)
        by (apply (Hfree k'), elem_of_cons; by right).
      apply bool_decide_eq_false in Hfree'. apply Hfree'.
      apply elem_of_stored_ids. eauto.
Qed.

Lemma run_checked_free sched w :
  registry_accepts entry (entities w) = true ->
  run svc sched (checked_migrate_unique_ids entry) w
  = run svc sched (migrate_unique_ids entry) w.
Proof.
  intros [Hids Hfree]%andb_true_iff. apply bool_decide_eq_true in Hids.
  rewrite checked_migrate_unique_ids_unfold.
  unfold migrate_unique_ids. cbn.
  apply run_checked_loop_free.
  - apply NoDup_fst_filter, NoDup_fst_map_to_list.
  - exact Hids.
  - intros k e Hin. by apply selected_spec in Hin as [Hin _].
  - intros k e Hin. rewrite forallb_forall in Hfree.
    apply negb_true_iff. apply Hfree.
    apply list_elem_of_In. unfold requested_ids. apply list_elem_of_fmap.
    by exists (k, e).
Qed.

(** On a registry that refuses none of the updates, the migration step
    returns and every entity is replaced by its [migrated] form. *)
Lemma run_checked_accepted sched w :
  registry_accepts entry (entities w) = true ->
  exists w',
    run svc sched (checked_migrate_unique_ids entry) w = Some (Returned tt, w')
    /\ entities w' = migrated entry <$> entities w
    /\ DATA_COORDINATOR w' = DATA_COORDINATOR w
    /\ DATA_TILE w' = DATA_TILE w
    /\ clock w' = clock w
    /\ trace w'
       = trace w ++ migration_events entry
                      (List.filter (old_format entry) (map_to_list (entities w))).
Proof.
  intros Hacc. rewrite (run_checked_free sched w Hacc).
  apply run_migrate_unique_ids.
Qed.

End Refusing.

(** ** C1, C6, C9: which unique ids the migration step rewrites, and to what *)

(** C1, as amended.  On a registry that refuses none of the updates, the
    migration step returns, and an entity of the entry whose stored unique
    id did not start with the username and had the old format [tile_<uuid>]
    then has a unique id that starts with [<username>_]; when the uuid holds
    no further [tile_], the new unique id is exactly [<username>_<uuid>]. *)
Theorem migration_renames_old_format svc sched entry w k e uuid :
  registry_accepts entry (entities w) = true ->
  entities w !! k = Some e ->
  config_entry_id e = Some (entry_id entry) ->
  PyStr.startswith (unique_id e) (CONF_USERNAME entry) = false ->
  unique_id e = DOMAIN +:+ "_" +:+ uuid ->
  exists w' e',
    run svc sched (checked_migrate_unique_ids entry) w = Some (Returned tt, w')
    /\ entities w' !! k = Some e'
    /\ config_entry_id e' = config_entry_id e
    /\ PyStr.startswith (unique_id e') (CONF_USERNAME entry +:+ "_") = true
    /\ (PyStr.contains uuid (DOMAIN +:+ "_") = false ->
        unique_id e' = CONF_USERNAME entry +:+ "_" +:+ uuid).
Proof.
  intros Hacc Hk Hcfg Hnew Hold.
  destruct (run_checked_accepted svc entry sched w Hacc) as (w' & Hrun & He & _).
  exists w', (rename_entity entry e). split; [exact Hrun |]. split.
  { rewrite He, lookup_fmap, Hk. cbn. unfold migrated, old_format. cbn [snd].
    by rewrite Hnew, bool_decide_eq_true_2. }
  split; [done |]. cbn [rename_entity unique_id].
  rewrite Hold, renamed_old_format. split.
  - rewrite <- app_assoc_str. apply startswith_app.
  - intros Habs. by rewrite renamed_absent.
Qed.

Lemma migration_renames_old_format_witness :
  registry_accepts Sample.alice (entities Sample.world) = true
  /\ exists w' e',
       run Sample.service [] (checked_migrate_unique_ids Sample.alice)
         Sample.world
       = Some (Returned tt, w')
       /\ entities w' !! "device_tracker.keys" = Some e'
       /\ PyStr.startswith (unique_id e') "alice_" = true
       /\ unique_id e' = "alice_t1".
Proof.
  assert (Hacc : registry_accepts Sample.alice (entities Sample.world) = true)
    by (vm_compute; reflexivity).
  split; [exact Hacc |].
  destruct (migration_renames_old_format Sample.service [] Sample.alice
              Sample.world "device_tracker.keys"
              {| unique_id := "tile_t1"; config_entry_id := Some "e1" |} "t1")
    as (w' & e' & Hrun & He' & _ & Hstart & Hid).
  - exact Hacc.
  - vm_compute. reflexivity.
  - reflexivity.
  - vm_compute. reflexivity.
  - reflexivity.
  - exists w', e'. split; [exact Hrun |]. split; [exact He' |].
    split; [exact Hstart |]. apply Hid. vm_compute. reflexivity.
Defined.

(** C1 as stated fails on the code, on a registry that refuses none of the
    updates.  A unique id that holds [tile_] but does not begin with it
    gets the username in the middle, and does not start with
    [<username>_]; and a uuid that itself holds [tile_] is not preserved. *)
Lemma migration_not_every_entity :
  let before k := unique_id <$> (entities Sample.world !! k) in
  let after k :=
    match run Sample.service [] (checked_migrate_unique_ids Sample.alice)
            Sample.world with
    | Some (Returned _, w') => unique_id <$> (entities w' !! k)
    | _ => None
    end in
  registry_accepts Sample.alice (entities Sample.world) = true
  /\ (before "device_tracker.bike" = Some "xtile_t4"
      /\ PyStr.startswith "xtile_t4" "alice" = false
      /\ after "device_tracker.bike" = Some "xalice_t4"
      /\ PyStr.startswith "xalice_t4" "alice_" = false)
  /\ (before "device_tracker.car" = Some ("tile_" +:+ "tile_t5")
      /\ PyStr.startswith ("tile_" +:+ "tile_t5") "alice" = false
      /\ after "device_tracker.car" = Some "alice_alice_t5"
      /\ "alice_alice_t5" <> "alice_" +:+ "tile_t5").
Proof. vm_compute. repeat split; discriminate. Qed.

(** Where the new unique id of the keys is in use, and where the only
    entity would get the unique id it has, the registry raises at the first
    update and is as it was: the keys are not migrated. *)
Example checked_migration_refused :
  registry_accepts Sample.alice (entities Sample.shared) = false
  /\ registry_accepts Sample.alice (entities Sample.stubborn) = false
  /\ match run Sample.service [] (checked_migrate_unique_ids Sample.alice)
             Sample.shared with
     | Some (Raised (ValueError _), w') =>
         unique_id <$> (entities w' !! "device_tracker.keys") = Some "tile_t1"
     | _ => False
     end
  /\ match run Sample.service [] (checked_migrate_unique_ids Sample.alice)
             Sample.stubborn with
     | Some (Raised (ValueError _), w') =>
         unique_id <$> (entities w' !! "device_tracker.bike") = Some "bike_t4"
     | _ => False
     end.
Proof.
  split; [vm_compute; reflexivity |]. split; [vm_compute; reflexivity |].
  split; vm_compute; reflexivity.
Qed.

(** C6.  An entity whose stored unique id already starts with the username
    is left as it is by the migration step, and by a second run of it. *)
Theorem migration_keeps_new_format svc sched entry w k e :
  entities w !! k = Some e ->
  PyStr.startswith (unique_id e) (CONF_USERNAME entry) = true ->
  exists w' w'',
    run svc sched (migrate_unique_ids entry) w = Some (Returned tt, w')
    /\ entities w' !! k = Some e
    /\ run svc sched (migrate_unique_ids entry) w' = Some (Returned tt, w'')
    /\ entities w'' !! k = Some e.
Proof.
  intros Hk Hnew.
  assert (Hkeep : migrated entry e = e).
  { unfold migrated, old_format. cbn [snd]. rewrite Hnew.
    by rewrite andb_false_r. }
  destruct (run_migrate_unique_ids svc entry sched w) as (w' & Hrun & He & _).
  destruct (run_migrate_unique_ids svc entry sched w') as (w'' & Hrun' & He' & _).
  exists w', w''.
  assert (Hk' : entities w' !! k = Some e).
  { by rewrite He, lookup_fmap, Hk; cbn; rewrite Hkeep. }
  repeat split; try done.
  by rewrite He', lookup_fmap, Hk'; cbn; rewrite Hkeep.
Qed.

Lemma migration_keeps_new_format_witness :
  exists w' w'',
    run Sample.service [] (migrate_unique_ids Sample.alice) Sample.world
    = Some (Returned tt, w')
    /\ entities w' !! "device_tracker.bag"
       = Some {| unique_id := "alice_t3"; config_entry_id := Some "e1" |}
    /\ run Sample.service [] (migrate_unique_ids Sample.alice) w'
       = Some (Returned tt, w'')
    /\ entities w'' !! "device_tracker.bag"
       = Some {| unique_id := "alice_t3"; config_entry_id := Some "e1" |}.
Proof.
  apply (migration_keeps_new_format Sample.service [] Sample.alice Sample.world).
  - vm_compute. reflexivity.
  - vm_compute. reflexivity.
Defined.

(** C9.  The check is on the bare username: an entity whose unique id is
    the username followed by anything at all, an underscore or not, is not
    selected and keeps its unique id. *)
Theorem migration_checks_bare_username svc sched entry w k e rest :
  entities w !! k = Some e ->
  unique_id e = CONF_USERNAME entry +:+ rest ->
  old_format entry (k, e) = false
  /\ exists w',
       run svc sched (migrate_unique_ids entry) w = Some (Returned tt, w')
       /\ entities w' !! k = Some e.
Proof.
  intros Hk Hid.
  assert (Hold : old_format entry (k, e) = false).
  { unfold old_format. cbn [snd]. rewrite Hid, startswith_app.
    apply andb_false_r. }
  split; [exact Hold |].
  destruct (run_migrate_unique_ids svc entry sched w) as (w' & Hrun & He & _).
  exists w'. split; [exact Hrun |].
  rewrite He, lookup_fmap, Hk. cbn. unfold migrated.
  change (old_format entry ("", e)) with (old_format entry (k, e)).
  by rewrite Hold.
Qed.

Lemma migration_checks_bare_username_witness :
  old_format Sample.alice
    ("device_tracker.wallet",
     {| unique_id := "alice2_t2"; config_entry_id := Some "e1" |}) = false
  /\ exists w',
       run Sample.service [] (migrate_unique_ids Sample.alice) Sample.world
       = Some (Returned tt, w')
       /\ entities w' !! "device_tracker.wallet"
          = Some {| unique_id := "alice2_t2"; config_entry_id := Some "e1" |}.
Proof.
  apply (migration_checks_bare_username Sample.service [] Sample.alice
           Sample.world "device_tracker.wallet" _ "2_t2").
  - vm_compute. reflexivity.
  - reflexivity.
Defined.

(** ** C3, C10: the update function of a tile *)

Section UpdateTile.

Context (svc : Service) (sched : list Action) (client : Client) (tile : Tile).

(** The three ways a call of [async_update_tile] can go, by the reply to
    [tile.async_update()]. *)
Lemma run_async_update_tile w :
  run svc sched (async_update_tile client tile) w
  = match svc unit (tile_async_update tile) (clock w) with
    | Ok _ => Some (Returned tt, tick (emit (EvTileUpdate (tile_uuid tile)) w))
    | Fail err =>
        match err_class err with
        | SessionExpiredError =>
            Some (match svc unit (client_async_init client) (S (clock w)) with
                  | Ok _ => Returned tt
                  | Fail err' => Raised (Upstream err')
                  end,
                  tick (emit EvClientInit
                    (emit (EvLog INFO "Tile session expired; creating a new one" [])
                       (tick (emit (EvTileUpdate (tile_uuid tile)) w)))))
        | OtherException =>
            Some (Raised (Upstream err),
                  tick (emit (EvTileUpdate (tile_uuid tile)) w))
        | _ =>
            Some (Raised (UpdateFailed
                            ("Error while retrieving data: " +:+ err_str err) err),
                  tick (emit (EvTileUpdate (tile_uuid tile)) w))
        end
    end.
Proof.
  cbn. destruct (svc unit (tile_async_update tile) (clock w)) as [[] | err]; cbn.
  - reflexivity.
  - destruct (err_class err); cbn; try reflexivity.
    by destruct (svc unit (client_async_init client) (S (clock w))) as [[] | err'].
Qed.

End UpdateTile.

(** C3.  When [tile.async_update()] fails with a session-expired error, the
    update function logs, calls [client.async_init()] and raises no
    [UpdateFailed]: it returns normally if that call succeeds.  When it
    fails with any other error of the client library's hierarchy, the
    update function raises [UpdateFailed] with the message
    ["Error while retrieving data: <err>"]. *)
Theorem update_tile_error_handling (svc : Service) sched client tile w err :
  svc unit (tile_async_update tile) (clock w) = Fail err ->
  is_TileError (err_class err) = true ->
  exists r w',
    run svc sched (async_update_tile client tile) w = Some (r, w')
    /\ match err_class err with
       | SessionExpiredError =>
           trace w' = trace w ++ [EvTileUpdate (tile_uuid tile);
                                   EvLog INFO "Tile session expired; creating a new one" [];
                                   EvClientInit]
           /\ (forall msg cause, r <> Raised (UpdateFailed msg cause))
           /\ (forall v, svc unit (client_async_init client) (S (clock w)) = Ok v ->
               r = Returned tt)
       | _ =>
           r = Raised (UpdateFailed
                         ("Error while retrieving data: " +:+ err_str err) err)
       end.
Proof.
  intros Hreply Htile. rewrite run_async_update_tile, Hreply.
  destruct (err_class err) eqn:Hclass; try discriminate Htile; eauto.
  eexists _, _. split; [reflexivity |]. cbn. split; [| split].
  - by rewrite <- !app_assoc.
  - intros msg cause.
    by destruct (svc unit (client_async_init client) (S (clock w))).
  - by intros v ->.
Qed.

Lemma update_tile_error_handling_witness :
  exists r w',
    run Sample.service [] (async_update_tile Sample.alice_client
                             {| tile_uuid := "t2"; tile_name := "Wallet" |})
        Sample.world = Some (r, w')
    /\ trace w' = [EvTileUpdate "t2";
                   EvLog INFO "Tile session expired; creating a new one" [];
                   EvClientInit]
    /\ r = Returned tt.
Proof.
  destruct (update_tile_error_handling Sample.service [] Sample.alice_client
              {| tile_uuid := "t2"; tile_name := "Wallet" |} Sample.world
              Sample.expired)
    as (r & w' & Hrun & Htrace & _ & Hret).
  - reflexivity.
  - reflexivity.
  - exists r, w'. split; [exact Hrun |]. split; [exact Htrace |].
    apply (Hret tt). reflexivity.
Defined.

(** C10.  When the session has expired and [client.async_init()] fails in
    its turn, that second error leaves the update function as it is,
    whatever its class: it is not wrapped into [UpdateFailed]. *)
Theorem update_tile_reinit_failure_propagates (svc : Service) sched client tile w
    err err' :
  svc unit (tile_async_update tile) (clock w) = Fail err ->
  err_class err = SessionExpiredError ->
  svc unit (client_async_init client) (S (clock w)) = Fail err' ->
  exists w',
    run svc sched (async_update_tile client tile) w
    = Some (Raised (Upstream err'), w')
    /\ trace w' = trace w ++ [EvTileUpdate (tile_uuid tile);
                               EvLog INFO "Tile session expired; creating a new one" [];
                               EvClientInit].
Proof.
  intros Hreply Hclass Hinit. rewrite run_async_update_tile, Hreply, Hclass, Hinit.
  eexists. split; [reflexivity |]. cbn. by rewrite <- !app_assoc.
Qed.

Lemma update_tile_reinit_failure_propagates_witness :
  exists w',
    run Sample.expired_for_good [] (async_update_tile Sample.alice_client Sample.keys)
        Sample.world
    = Some (Raised (Upstream Sample.unreachable), w')
    /\ trace w' = [EvTileUpdate "t1";
                   EvLog INFO "Tile session expired; creating a new one" [];
                   EvClientInit].
Proof.
  apply (update_tile_reinit_failure_propagates Sample.expired_for_good []
           Sample.alice_client Sample.keys Sample.world Sample.expired);
    reflexivity.
Defined.

(** ** C2: failures of login and discovery *)

Section LoginAndDiscover.

Context (svc : Service) (sched : list Action) (entry : ConfigEntry).

Lemma run_login_and_discover w :
  let w1 := tick (emit (EvLogin (CONF_USERNAME entry)) w) in
  let w2 := tick (emit EvGetTiles w1) in
  run svc sched (login_and_discover entry) w
  = Some
      match svc Client (async_login (CONF_USERNAME entry) (CONF_PASSWORD entry))
                (clock w) with
      | Fail err => failure_outcome err w1
      | Ok client =>
          match svc _ (async_get_tiles client) (S (clock w)) with
          | Fail err => failure_outcome err w2
          | Ok tiles =>
              (Returned (Some client), set_tiles <[entry_id entry := tiles]> w2)
          end
      end.
Proof.
  cbn.
  destruct (svc Client _ (clock w)) as [client | err]; cbn.
  - destruct (svc _ (async_get_tiles client) (S (clock w))) as [tiles | err]; cbn.
    + reflexivity.
    + unfold failure_outcome. by destruct (err_class err).
  - unfold failure_outcome. by destruct (err_class err).
Qed.

(** [async_setup_entry] up to the end of its [try] block. *)
Lemma run_async_setup_entry w :
  exists w1,
    entities w1 = migrated entry <$> entities w
    /\ DATA_COORDINATOR w1 = <[entry_id entry := ∅]> (DATA_COORDINATOR w)
    /\ DATA_TILE w1 = <[entry_id entry := ∅]> (DATA_TILE w)
    /\ clock w1 = clock w
    /\ trace w1
       = trace w ++ migration_events entry
                      (List.filter (old_format entry) (map_to_list (entities w)))
    /\ run svc sched (async_setup_entry entry) w
       = match run svc sched (login_and_discover entry) w1 with
         | Some (Returned None, w2) => Some (Returned false, w2)
         | Some (Returned (Some client), w2) =>
             run svc sched (start_coordinators entry client) w2
         | Some (Raised e, w2) => Some (Raised e, w2)
         | None => None
         end
    /\ run_to_gather svc (async_setup_entry entry) w
       = match run svc sched (login_and_discover entry) w1 with
         | Some (Returned (Some client), w2) =>
             run_to_gather svc (start_coordinators entry client) w2
         | _ => None
         end.
Proof.
  set (w0 := set_tiles <[entry_id entry := ∅]>
               (set_coordinators <[entry_id entry := ∅]> w)).
  destruct (run_migrate_unique_ids svc entry sched w0)
    as (w1 & Hrun & He & Hc & Ht & Hclk & Htr).
  assert (Hseq : sequential (migrate_unique_ids entry)).
  { unfold migrate_unique_ids. intros r.
    apply sequential_for_each, sequential_migrate_entity. }
  exists w1. repeat split; try done.
  - unfold async_setup_entry.
    rewrite run_bind, run_modify by apply sequential_modify.
    rewrite run_bind, run_modify by apply sequential_modify.
    fold w0. rewrite run_bind, Hrun by exact Hseq.
    rewrite run_bind by apply sequential_login_and_discover.
    destruct (run svc sched (login_and_discover entry) w1)
      as [[[[client |] | e] w2] |]; reflexivity.
  - unfold async_setup_entry.
    rewrite (run_to_gather_bind svc _ _ sched), run_modify
      by apply sequential_modify.
    rewrite (run_to_gather_bind svc _ _ sched), run_modify
      by apply sequential_modify.
    fold w0. rewrite (run_to_gather_bind svc _ _ sched), Hrun by exact Hseq.
    rewrite (run_to_gather_bind svc _ _ sched)
      by apply sequential_login_and_discover.
    destruct (run svc sched (login_and_discover entry) w1)
      as [[[[client |] | e] w2] |]; reflexivity.
Qed.

End LoginAndDiscover.

(** C2.  When the login, or the discovery after a successful login, fails
    with an error of the client library's hierarchy, setup ends there: with
    invalid credentials it returns [False], with any other such error it
    raises [ConfigEntryNotReady]; in both cases the coordinator mapping of
    the entry is empty. *)
Theorem setup_entry_failure (svc : Service) sched entry w err :
  let login := async_login (CONF_USERNAME entry) (CONF_PASSWORD entry) in
  svc _ login (clock w) = Fail err
  \/ (exists client,
        svc _ login (clock w) = Ok client
        /\ svc _ (async_get_tiles client) (S (clock w)) = Fail err) ->
  is_TileError (err_class err) = true ->
  exists w',
    run svc sched (async_setup_entry entry) w
    = Some (match err_class err with
            | InvalidAuthError => Returned false
            | _ => Raised (ConfigEntryNotReady "Error during integration setup" err)
            end, w')
    /\ DATA_COORDINATOR w' !! entry_id entry = Some ∅.
Proof.
  intros login Hfail Htile.
  destruct (run_async_setup_entry svc sched entry w)
    as (w1 & _ & Hc & _ & Hclk & _ & -> & _).
  rewrite run_login_and_discover, Hclk. fold login.
  assert (Hout : forall w2,
            DATA_COORDINATOR w2 = DATA_COORDINATOR w1 ->
            exists w',
              match failure_outcome err w2 with
              | (Returned None, w3) => Some (Returned false, w3)
              | (Returned (Some client), w3) =>
                  run svc sched (start_coordinators entry client) w3
              | (Raised e, w3) => Some (Raised e, w3)
              end
              = Some (match err_class err with
                      | InvalidAuthError => Returned false
                      | _ => Raised (ConfigEntryNotReady
                                       "Error during integration setup" err)
                      end, w')
              /\ DATA_COORDINATOR w' !! entry_id entry = Some ∅).
  { intros w2 Hw2. unfold failure_outcome.
    destruct (err_class err); try discriminate Htile;
      (eexists; split; [reflexivity |]); cbn;
      by rewrite Hw2, Hc, lookup_insert_eq. }
  destruct Hfail as [-> | (client & -> & ->)]; by apply Hout.
Qed.

Lemma setup_entry_failure_witness :
  exists w',
    run (Sample.failing Sample.bad_password) [] (async_setup_entry Sample.alice)
        Sample.world
    = Some (Returned false, w')
    /\ DATA_COORDINATOR w' !! "e1" = Some ∅.
Proof.
  apply (setup_entry_failure (Sample.failing Sample.bad_password) []
           Sample.alice Sample.world Sample.bad_password).
  - left. reflexivity.
  - reflexivity.
Defined.

(** The same with a service that cannot be reached. *)
Example setup_entry_not_ready :
  exists w',
    run (Sample.failing Sample.unreachable) [] (async_setup_entry Sample.alice)
        Sample.world
    = Some (Raised (ConfigEntryNotReady "Error during integration setup"
                      Sample.unreachable), w').
Proof. eexists. vm_compute. reflexivity. Qed.

(** ** C5: unloading an entry *)

(** C5.  [async_unload_entry] returns what the unloading of the platforms
    returned.  If that is [True], the coordinator mapping of the entry,
    which setup created, is removed; if it is [False], the mappings are as
    before.  The tile mapping is never touched. *)
Theorem unload_entry_removes_coordinators (svc : Service) sched entry w unload_ok :
  svc _ (async_unload_platforms entry PLATFORMS) (clock w) = Ok unload_ok ->
  is_Some (DATA_COORDINATOR w !! entry_id entry) ->
  exists w',
    run svc sched (async_unload_entry entry) w = Some (Returned unload_ok, w')
    /\ DATA_COORDINATOR w'
       = (if unload_ok then delete (entry_id entry) (DATA_COORDINATOR w)
          else DATA_COORDINATOR w)
    /\ (DATA_COORDINATOR w' !! entry_id entry = None <-> unload_ok = true)
    /\ DATA_TILE w' = DATA_TILE w.
Proof.
  intros Hreply [cs Hcs]. unfold async_unload_entry. cbn. rewrite Hreply. cbn.
  destruct unload_ok; cbn.
  - rewrite Hcs. cbn. eexists. split; [reflexivity |]. cbn.
    rewrite lookup_delete_eq. by repeat split.
  - eexists. split; [reflexivity |]. cbn. rewrite Hcs. by repeat split.
Qed.

Lemma unload_entry_removes_coordinators_witness :
  exists w',
    run Sample.service [] (async_unload_entry Sample.alice) Sample.loaded
    = Some (Returned true, w')
    /\ DATA_COORDINATOR w' = delete "e1" (DATA_COORDINATOR Sample.loaded)
    /\ (DATA_COORDINATOR w' !! "e1" = None <-> true = true)
    /\ DATA_TILE w' = DATA_TILE Sample.loaded.
Proof.
  apply (unload_entry_removes_coordinators Sample.service [] Sample.alice
           Sample.loaded true).
  - reflexivity.
  - vm_compute. eexists. reflexivity.
Defined.

(** Where setup has not created the mapping, a successful unloading of the
    platforms ends in a [KeyError]. *)
Lemma unload_entry_without_setup (svc : Service) sched entry w :
  svc _ (async_unload_platforms entry PLATFORMS) (clock w) = Ok true ->
  DATA_COORDINATOR w !! entry_id entry = None ->
  exists w',
    run svc sched (async_unload_entry entry) w
    = Some (Raised (KeyError (entry_id entry)), w').
Proof.
  intros Hreply Hcs. unfold async_unload_entry. cbn. rewrite Hreply. cbn.
  rewrite Hcs. cbn. eauto.
Qed.

(** ** C7: the permits of the gather *)

Lemma filter_insert_length {A} (P : A -> bool) (l : list A) i x y :
  l !! i = Some x ->
  length (List.filter P (<[i := y]> l)) + (if P x then 1 else 0)
  = length (List.filter P l) + (if P y then 1 else 0).
Proof.
  revert i. induction l as [|a l IH]; intros [|i] Hi; try done.
  - injection Hi as ->.
    change (<[0 := y]> (x :: l)) with (y :: l). cbn [List.filter].
    destruct (P x), (P y); cbn [length]; lia.
  - change (<[S i := y]> (a :: l)) with (a :: <[i := y]> l).
    change (l !! i = Some x) in Hi. specialize (IH i Hi). cbn [List.filter].
    destruct (P a); cbn [length]; lia.
Qed.

Section Permits.

Context (svc : Service).

Lemma balanced_init limit tasks w : balanced limit (pool_init limit tasks w).
Proof.
  unfold balanced, in_flight, pool_init. cbn.
  assert (H : List.filter is_in_flight (Waiting <$> tasks) = []).
  { induction tasks as [|t tasks IH]; [done | exact IH]. }
  rewrite H. cbn. lia.
Qed.

Lemma land_counts i held st w n st' w' :
  land i held st w = Some (n, st', w') ->
  st' = st /\ is_waiting st' = false
  /\ n + (if is_in_flight st' then 1 else 0) = S held.
Proof.
  destruct st; cbn; intros H; try discriminate; injection H as <- <- <-;
    repeat split; cbn; lia.
Qed.

Lemma balanced_step limit a pl pl' :
  balanced limit pl -> pool_step svc a pl = Some pl' -> balanced limit pl'.
Proof.
  unfold balanced, in_flight. intros Hb Hstep. destruct a as [i | i]; cbn in Hstep.
  - destruct (slots pl !! i) as [[p | | |] |] eqn:Hi; try discriminate.
    destruct (permits pl) as [|held] eqn:Hp; [discriminate |].
    destruct (advance p _) as [st w].
    destruct (land i held st w) as [[[n st'] w'] |] eqn:Hland; [| discriminate].
    injection Hstep as <-. cbn.
    apply land_counts in Hland as (_ & _ & Hn).
    pose proof (filter_insert_length is_in_flight _ _ _ st' Hi) as Hf.
    cbn in Hf. lia.
  - destruct (slots pl !! i) as [[| R c k | |] |] eqn:Hi; try discriminate.
    destruct (advance _ _) as [st w].
    destruct (land i (permits pl) st w) as [[[n st'] w'] |] eqn:Hland;
      [| discriminate].
    injection Hstep as <-. cbn.
    apply land_counts in Hland as (_ & _ & Hn).
    pose proof (filter_insert_length is_in_flight _ _ _ st' Hi) as Hf.
    cbn in Hf. lia.
Qed.

Lemma balanced_run limit sched pl pl' :
  balanced limit pl -> pool_run svc sched pl = Some pl' -> balanced limit pl'.
Proof.
  revert pl. induction sched as [|a sched IH]; intros pl Hb Hrun; cbn in Hrun.
  - by injection Hrun as <-.
  - destruct (pool_step svc a pl) as [pl1 |] eqn:Hstep; [| discriminate].
    cbn in Hrun. eapply IH; [| exact Hrun]. by eapply balanced_step.
Qed.

(** With no permit left, no task can start. *)
Lemma no_permit_no_start i pl :
  permits pl = 0 -> pool_step svc (Start i) pl = None.
Proof.
  intros Hp. cbn. rewrite Hp. by destruct (slots pl !! i) as [[] |].
Qed.

End Permits.

(** ** Creating the coordinators *)

Lemma sequential_create_coordinators entry client items tasks :
  sequential (create_coordinators entry client items tasks).
Proof.
  revert tasks. induction items as [|[uuid tile] items IH]; intros tasks; [exact I |].
  cbn [create_coordinators].
  apply (sequential_bind get); [by intros r | intros w].
  destruct (DATA_COORDINATOR w !! entry_id entry); [| done].
  apply (sequential_bind (modify _)); [apply sequential_modify |].
  intros _. apply IH.
Qed.

Lemma insert_alter_eq {A} (m : gmap string A) (f : A -> A) k x :
  <[k := x]> (alter f k m) = <[k := x]> m.
Proof.
  apply map_eq. intros j. destruct (decide (k = j)) as [-> | Hne].
  - by rewrite !lookup_insert_eq.
  - rewrite !lookup_insert_ne by done. by rewrite lookup_alter_ne.
Qed.

Section Coordinators.

Context (svc : Service) (sched : list Action).
Context (entry : ConfigEntry) (client : Client).

Lemma run_create_coordinators items :
  forall tasks w cs,
    DATA_COORDINATOR w !! entry_id entry = Some cs ->
    exists w',
      run svc sched (create_coordinators entry client items tasks) w
      = Some (Returned (tasks ++ refresh_tasks entry client items), w')
      /\ entities w' = entities w
      /\ DATA_TILE w' = DATA_TILE w
      /\ clock w' = clock w
      /\ trace w' = trace w ++ (EvCoordinator <$> items.*1)
      /\ DATA_COORDINATOR w'
         = <[entry_id entry :=
               foldl (fun m item => <[item.1 := new_coordinator client item.2]> m)
                     cs items]> (DATA_COORDINATOR w).
Proof.
  induction items as [|[uuid tile] items IH]; intros tasks w cs Hcs.
  - exists w. cbn. rewrite !app_nil_r. by rewrite insert_id.
  - cbn [create_coordinators].
    rewrite run_bind, run_get by (by intros r). rewrite Hcs.
    rewrite run_bind, run_modify by apply sequential_modify.
    match goal with |- context [run _ _ _ ?x] => set (w1 := x) end.
    destruct (IH (tasks ++ [async_refresh (entry_id entry) uuid
                              (new_coordinator client tile)]) w1
                 (<[uuid := new_coordinator client tile]> cs))
      as (w' & Hrun & He & Ht & Hclk & Htr & Hc).
    { subst w1. unfold emit, set_coordinators. cbn [DATA_COORDINATOR].
      by rewrite lookup_alter_eq, Hcs. }
    exists w'. rewrite Hrun, He, Ht, Hclk, Htr, Hc. subst w1.
    unfold emit, set_coordinators.
    cbn [DATA_COORDINATOR DATA_TILE entities clock trace fmap list_fmap fst foldl].
    rewrite <- !app_assoc. repeat split. apply insert_alter_eq.
Qed.

(** The rest of setup after a successful login and discovery: the state
    [w1] in which the gather is launched, with its ceiling and its tasks,
    and what follows the gather. *)
Lemma run_start_coordinators w tiles cs :
  DATA_TILE w !! entry_id entry = Some tiles ->
  DATA_COORDINATOR w !! entry_id entry = Some cs ->
  let tasks := refresh_tasks entry client (map_to_list tiles) in
  exists w1,
    entities w1 = entities w
    /\ DATA_TILE w1 = DATA_TILE w
    /\ clock w1 = clock w
    /\ trace w1 = trace w ++ (EvCoordinator <$> (map_to_list tiles).*1)
    /\ DATA_COORDINATOR w1
       = <[entry_id entry :=
             foldl (fun m item => <[item.1 := new_coordinator client item.2]> m)
                   cs (map_to_list tiles)]> (DATA_COORDINATOR w)
    /\ run_to_gather svc (start_coordinators entry client) w
       = Some (DEFAULT_INIT_TASK_LIMIT, tasks, w1)
    /\ run svc sched (start_coordinators entry client) w
       = match run_gather svc DEFAULT_INIT_TASK_LIMIT tasks sched w1 with
         | Some (Returned _, w2) =>
             Some (Returned true,
                   emit (EvSetupPlatforms (entry_id entry) PLATFORMS) w2)
         | Some (Raised e, w2) => Some (Raised e, w2)
         | None => None
         end.
Proof.
  intros Ht Hcs tasks.
  destruct (run_create_coordinators (map_to_list tiles) [] w cs Hcs)
    as (w1 & Hrun & He1 & Ht1 & Hclk1 & Htr1 & Hc1).
  exists w1. repeat split; try done.
  - unfold start_coordinators. cbn. rewrite Ht.
    rewrite (run_to_gather_bind svc _ _ sched)
      by apply sequential_create_coordinators.
    by rewrite Hrun.
  - unfold start_coordinators. cbn. rewrite Ht.
    rewrite run_bind by apply sequential_create_coordinators.
    rewrite Hrun. cbn. fold tasks.
    by destruct (run_gather svc DEFAULT_INIT_TASK_LIMIT tasks sched w1)
      as [[[[] | e] w2] |].
Qed.

End Coordinators.

(** ** Setup up to the launch of the initial refresh *)

Section Launch.

Context (svc : Service) (sched : list Action) (entry : ConfigEntry).

Let login := async_login (CONF_USERNAME entry) (CONF_PASSWORD entry).

(** After a successful login and discovery, setup launches the gather of
    the refresh coroutines of the discovered tiles in the state [w3], and
    goes on to the platforms when the gather has returned. *)
Lemma setup_entry_launch w client tiles :
  svc _ login (clock w) = Ok client ->
  svc _ (async_get_tiles client) (S (clock w)) = Ok tiles ->
  let tasks := refresh_tasks entry client (map_to_list tiles) in
  exists w3,
    entities w3 = migrated entry <$> entities w
    /\ DATA_TILE w3 = <[entry_id entry := tiles]> (DATA_TILE w)
    /\ DATA_COORDINATOR w3
       = <[entry_id entry := new_coordinator client <$> tiles]> (DATA_COORDINATOR w)
    /\ trace w3
       = trace w
         ++ migration_events entry
              (List.filter (old_format entry) (map_to_list (entities w)))
         ++ [EvLogin (CONF_USERNAME entry); EvGetTiles]
         ++ (EvCoordinator <$> (map_to_list tiles).*1)
    /\ run_to_gather svc (async_setup_entry entry) w
       = Some (DEFAULT_INIT_TASK_LIMIT, tasks, w3)
    /\ run svc sched (async_setup_entry entry) w
       = match run_gather svc DEFAULT_INIT_TASK_LIMIT tasks sched w3 with
         | Some (Returned _, w4) =>
             Some (Returned true,
                   emit (EvSetupPlatforms (entry_id entry) PLATFORMS) w4)
         | Some (Raised e, w4) => Some (Raised e, w4)
         | None => None
         end.
Proof.
  intros Hlogin Htiles tasks.
  destruct (run_async_setup_entry svc sched entry w)
    as (w1 & He1 & Hc1 & Ht1 & Hclk1 & Htr1 & -> & ->).
  rewrite run_login_and_discover, Hclk1. fold login. rewrite Hlogin, Htiles.
  match goal with |- context [run _ _ _ ?x] => set (w2 := x) end.
  destruct (run_start_coordinators svc sched entry client w2 tiles ∅)
    as (w3 & He3 & Ht3 & _ & Htr3 & Hc3 & Hlaunch & Hrun).
  { subst w2. cbn. apply lookup_insert_eq. }
  { subst w2. cbn. rewrite Hc1. apply lookup_insert_eq. }
  exists w3. split; [by rewrite He3 |].
  split; [subst w2; rewrite Ht3; cbn; by rewrite Ht1, insert_insert_eq |].
  split.
  { rewrite Hc3. subst w2. cbn. rewrite Hc1, insert_insert_eq.
    by rewrite (foldl_insert_map_to_list (new_coordinator client)). }
  split; [| by split].
  rewrite Htr3. subst w2. cbn. rewrite Htr1. by rewrite <- !app_assoc.
Qed.

(** Setup returns [True] only after a successful login and discovery. *)
Lemma setup_entry_true_inv w w' :
  run svc sched (async_setup_entry entry) w = Some (Returned true, w') ->
  exists client tiles,
    svc _ login (clock w) = Ok client
    /\ svc _ (async_get_tiles client) (S (clock w)) = Ok tiles.
Proof.
  destruct (run_async_setup_entry svc sched entry w)
    as (w1 & _ & _ & _ & Hclk1 & _ & -> & _).
  rewrite run_login_and_discover, Hclk1. fold login.
  destruct (svc _ login (clock w)) as [client | err].
  - destruct (svc _ (async_get_tiles client) (S (clock w)))
      as [tiles | err] eqn:Htiles; [eauto |].
    unfold failure_outcome. by destruct (err_class err).
  - unfold failure_outcome. by destruct (err_class err).
Qed.

(** And it launches the gather only then. *)
Lemma setup_entry_launch_inv w limit tasks w3 :
  run_to_gather svc (async_setup_entry entry) w = Some (limit, tasks, w3) ->
  exists client tiles,
    svc _ login (clock w) = Ok client
    /\ svc _ (async_get_tiles client) (S (clock w)) = Ok tiles.
Proof.
  destruct (run_async_setup_entry svc sched entry w)
    as (w1 & _ & _ & _ & Hclk1 & _ & _ & ->).
  rewrite run_login_and_discover, Hclk1. fold login.
  destruct (svc _ login (clock w)) as [client | err].
  - destruct (svc _ (async_get_tiles client) (S (clock w)))
      as [tiles | err] eqn:Htiles; [eauto |].
    unfold failure_outcome. by destruct (err_class err).
  - unfold failure_outcome. by destruct (err_class err).
Qed.

End Launch.

(** C7.  The gather that setup launches has a ceiling of two, over one
    refresh coroutine per discovered tile; however the event loop schedules
    them, at no point are more than two of them in flight, and while two are
    in flight no further one can start. *)
Theorem initial_refresh_bounded (svc : Service) entry w limit tasks w3 sched pl :
  run_to_gather svc (async_setup_entry entry) w = Some (limit, tasks, w3) ->
  pool_run svc sched (pool_init limit tasks w3) = Some pl ->
  limit = 2
  /\ (exists client tiles,
        svc _ (async_get_tiles client) (S (clock w)) = Ok tiles
        /\ tasks = refresh_tasks entry client (map_to_list tiles))
  /\ in_flight pl <= 2
  /\ (in_flight pl = 2 -> forall i, pool_step svc (Start i) pl = None).
Proof.
  intros Hlaunch Hrun.
  destruct (setup_entry_launch_inv svc [] entry w _ _ _ Hlaunch)
    as (client & tiles & Hlogin & Htiles).
  destruct (setup_entry_launch svc [] entry w client tiles Hlogin Htiles)
    as (w3' & _ & _ & _ & _ & Hlaunch' & _).
  rewrite Hlaunch in Hlaunch'. injection Hlaunch' as -> -> ->.
  pose proof (balanced_run svc _ _ _ _ (balanced_init _ _ _) Hrun) as Hb.
  unfold balanced, DEFAULT_INIT_TASK_LIMIT in Hb.
  split; [done |]. split; [eauto |]. split; [lia |].
  intros Hfull i. apply no_permit_no_start. lia.
Qed.

Lemma initial_refresh_bounded_witness :
  match run_to_gather Sample.service (async_setup_entry Sample.alice)
          Sample.world with
  | Some (limit, tasks, w3) =>
      match pool_run Sample.service [Start 0; Start 1]
              (pool_init limit tasks w3) with
      | Some pl =>
          limit = 2 /\ in_flight pl <= 2
          /\ (in_flight pl = 2 ->
              forall i, pool_step Sample.service (Start i) pl = None)
      | None => False
      end
  | None => False
  end.
Proof.
  assert (Hruns :
            match run_to_gather Sample.service (async_setup_entry Sample.alice)
                    Sample.world with
            | Some (limit, tasks, w3) =>
                match pool_run Sample.service [Start 0; Start 1]
                        (pool_init limit tasks w3) with
                | Some _ => true
                | None => false
                end
            | None => false
            end = true) by (vm_compute; reflexivity).
  revert Hruns.
  destruct (run_to_gather Sample.service (async_setup_entry Sample.alice)
              Sample.world) as [[[limit tasks] w3] |] eqn:Hlaunch;
    [| discriminate].
  destruct (pool_run Sample.service [Start 0; Start 1] (pool_init limit tasks w3))
    as [pl |] eqn:Hrun; [intros _ | discriminate].
  destruct (initial_refresh_bounded Sample.service Sample.alice Sample.world
              limit tasks w3 [Start 0; Start 1] pl Hlaunch Hrun)
    as (Hlimit & _ & Hle & Hfull).
  auto.
Defined.

(** Two tasks of the sample account are in flight after two starts, and the
    third start is refused. *)
Example third_start_refused :
  match run_to_gather Sample.service (async_setup_entry Sample.alice)
          Sample.world with
  | Some (limit, tasks, w3) =>
      (in_flight <$> pool_run Sample.service [Start 0; Start 1]
                       (pool_init limit tasks w3)) = Some 2
      /\ pool_run Sample.service [Start 0; Start 1; Start 2]
           (pool_init limit tasks w3) = None
  | None => False
  end.
Proof. vm_compute. split; reflexivity. Qed.

(** ** C4, C8: what the initial refresh leaves as it was *)

Lemma built_record ok uuid entry m :
  built (alter (alter (record_refresh ok) uuid) entry m) = built m.
Proof.
  unfold built. apply map_eq. intros e. rewrite !lookup_fmap.
  destruct (decide (entry = e)) as [<- | Hne].
  - rewrite lookup_alter_eq. destruct (m !! entry) as [cs |]; [| done].
    cbn. f_equal. apply map_eq. intros u. rewrite !lookup_fmap.
    destruct (decide (uuid = u)) as [<- | Hne].
    + rewrite lookup_alter_eq. by destruct (cs !! uuid).
    + by rewrite lookup_alter_ne.
  - by rewrite lookup_alter_ne.
Qed.

Lemma refreshed_refl w : refreshed w w [].
Proof. unfold refreshed. by rewrite app_nil_r. Qed.

Lemma refreshed_trans w1 w2 w3 evs evs' :
  refreshed w1 w2 evs -> refreshed w2 w3 evs' -> refreshed w1 w3 (evs ++ evs').
Proof.
  intros (He & Ht & Hc & Htr & Hev) (He' & Ht' & Hc' & Htr' & Hev').
  split; [congruence |]. split; [congruence |]. split; [congruence |].
  split; [rewrite Htr', Htr; by rewrite app_assoc |].
  by rewrite forallb_app, Hev, Hev'.
Qed.

Lemma refreshed_emit ev w : task_event ev = true -> refreshed w (emit ev w) [ev].
Proof. intros Hev. unfold refreshed. cbn. by rewrite Hev. Qed.

Lemma refreshed_tick w : refreshed w (tick w) [].
Proof. unfold refreshed. cbn. by rewrite app_nil_r. Qed.

Lemma refreshed_record ok uuid entry w :
  refreshed w (set_coordinators (alter (alter (record_refresh ok) uuid) entry) w) [].
Proof. unfold refreshed. cbn. by rewrite built_record, app_nil_r. Qed.

Lemma refreshing_bind {A B} (p : Prog A) (f : A -> Prog B) :
  refreshing p -> (forall a, refreshing (f a)) -> refreshing (p ≫= f).
Proof.
  intros Hp Hf. revert B f Hp Hf.
  induction p as [A a | A e | A R g k IH | A R c k IH | A limit tasks k IH];
    intros B f Hp Hf; cbn in *; auto.
  - destruct Hp as [Hg Hk]. split; [exact Hg |]. intros r. apply IH; auto.
  - destruct Hp as [Hc Hk]. split; [exact Hc |]. intros r. apply IH; auto.
Qed.

Lemma refreshing_try_except {A} (p : Prog A) (h : Exception -> Prog A) :
  refreshing p -> (forall e, refreshing (h e)) -> refreshing (try_except p h).
Proof.
  intros Hp Hh.
  induction p as [A a | A e | A R g k IH | A R c k IH | A limit tasks k IH];
    cbn in *; auto.
  - destruct Hp as [Hg Hk]. split; [exact Hg |]. intros r. apply IH; auto.
  - destruct Hp as [Hc Hk]. split; [exact Hc |]. intros r. apply IH; auto.
Qed.

Lemma refreshing_modify f :
  (forall w, exists evs, refreshed w (f w) evs) -> refreshing (modify f).
Proof. intros Hf. split; [exact Hf | by intros r]. Qed.

Lemma refreshing_await {R} (c : ExtCall R) :
  task_event (call_event c) = true -> refreshing (await c).
Proof. intros Hc. split; [exact Hc | by intros [v | err]]. Qed.

Lemma refreshing_async_update_tile client tile :
  refreshing (async_update_tile client tile).
Proof.
  apply refreshing_try_except; [by apply refreshing_await |].
  intros [err | | | |]; try exact I.
  destruct (err_class err); try exact I.
  apply refreshing_bind; [| intros _; by apply refreshing_await].
  apply refreshing_modify. intros w. eexists. by apply refreshed_emit.
Qed.

Lemma refreshing_async_refresh entry uuid c :
  refreshing (async_refresh entry uuid c).
Proof.
  unfold async_refresh. apply refreshing_bind.
  - apply refreshing_try_except; [| by intros e].
    apply refreshing_bind; [apply refreshing_async_update_tile | by intros _].
  - intros r. apply refreshing_modify. intros w. exists [].
    apply refreshed_record.
Qed.

Lemma refreshing_refresh_tasks entry client items :
  Forall refreshing (refresh_tasks entry client items).
Proof.
  unfold refresh_tasks. apply Forall_fmap, Forall_forall. intros item _.
  apply refreshing_async_refresh.
Qed.

(** A task runs to its next suspension point within these bounds. *)
Lemma advance_refreshing (p : Prog unit) :
  forall w st w',
    refreshing p -> advance p w = (st, w') ->
    task_ok st /\ exists evs, refreshed w w' evs.
Proof.
  revert p. fix IH 1. intros p w st w' Hp Hadv.
  destruct p as [a | e | R g k | R c k | limit tasks k]; cbn in Hadv, Hp.
  - injection Hadv as <- <-. split; [exact I |]. exists []. apply refreshed_refl.
  - injection Hadv as <- <-. split; [exact I |]. exists []. apply refreshed_refl.
  - destruct Hp as [Hg Hk]. destruct (Hg w) as [evs0 H0].
    destruct (g w) as [r w1]. cbn in H0.
    destruct (IH (k r) w1 st w' (Hk r) Hadv) as [Hst [evs1 H1]].
    split; [exact Hst |]. exists (evs0 ++ evs1). by eapply refreshed_trans.
  - destruct Hp as [Hc Hk]. injection Hadv as <- <-. split; [exact Hk |].
    exists [call_event c]. by apply refreshed_emit.
  - destruct Hp.
Qed.

Lemma land_refreshed i held st w n st' w' :
  land i held st w = Some (n, st', w') ->
  st' = st
  /\ is_waiting st' = false
  /\ exists evs,
       refreshed w w' evs /\ (is_settled st' = true -> EvTaskSettled i ∈ evs).
Proof.
  destruct st as [p | R c k | r |]; cbn; intros H; try discriminate;
    injection H as <- <- <-; (split; [done |]); (split; [done |]).
  - exists []. split; [apply refreshed_refl | done].
  - exists [EvTaskSettled i]. split; [by apply refreshed_emit |].
    intros _. apply elem_of_cons. by left.
Qed.

Section Refreshing.

Context (svc : Service).

Lemma pool_ok_init limit tasks w :
  Forall refreshing tasks -> pool_ok w (pool_init limit tasks w).
Proof.
  intros Htasks. split; cbn.
  - apply Forall_fmap. exact Htasks.
  - exists []. split; [apply refreshed_refl |].
    intros i st. rewrite list_lookup_fmap.
    destruct (tasks !! i) as [p |]; cbn; intros [= <-]; cbn. by split.
Qed.

Lemma pool_ok_step w0 a pl pl' :
  pool_ok w0 pl -> pool_step svc a pl = Some pl' ->
  pool_ok w0 pl' /\ length (slots pl') = length (slots pl).
Proof.
  intros (Hok & evs & Hfr & Hev) Hstep. destruct a as [i | i]; cbn in Hstep.
  - destruct (slots pl !! i) as [[p | | |] |] eqn:Hi; try discriminate.
    destruct (permits pl) as [|held]; [discriminate |].
    destruct (advance p _) as [st w] eqn:Hadv.
    destruct (land i held st w) as [[[n st'] w'] |] eqn:Hland; [| discriminate].
    injection Hstep as <-. cbn. split; [| apply length_insert].
    pose proof (Forall_lookup_1 _ _ _ _ Hok Hi) as Hp. cbn in Hp.
    destruct (advance_refreshing _ _ _ _ Hp Hadv) as (Hst & evs1 & Hfr1).
    destruct (land_refreshed _ _ _ _ _ _ _ Hland)
      as (-> & Hw & evs2 & Hfr2 & Hset).
    split; cbn; [by apply Forall_insert |].
    exists (evs ++ [EvTaskStart i] ++ evs1 ++ evs2). split.
    { eapply refreshed_trans; [exact Hfr |].
      eapply refreshed_trans; [by apply refreshed_emit |].
      by eapply refreshed_trans. }
    intros j st0 Hj. destruct (decide (i = j)) as [<- | Hne].
    + rewrite list_lookup_insert_eq in Hj by (by eapply lookup_lt_Some).
      injection Hj as <-. split; intros H.
      * apply elem_of_app. right. apply elem_of_cons. by left.
      * apply elem_of_app. right. apply elem_of_cons. right.
        apply elem_of_app. right. by apply Hset.
    + rewrite list_lookup_insert_ne in Hj by done.
      destruct (Hev j st0 Hj) as [H1 H2].
      split; intros H; apply elem_of_app; left; auto.
  - destruct (slots pl !! i) as [[| R c k | |] |] eqn:Hi; try discriminate.
    destruct (advance _ _) as [st w] eqn:Hadv.
    destruct (land i (permits pl) st w) as [[[n st'] w'] |] eqn:Hland;
      [| discriminate].
    injection Hstep as <-. cbn. split; [| apply length_insert].
    pose proof (Forall_lookup_1 _ _ _ _ Hok Hi) as Hk. cbn in Hk.
    destruct (advance_refreshing _ _ _ _ (Hk _) Hadv) as (Hst & evs1 & Hfr1).
    destruct (land_refreshed _ _ _ _ _ _ _ Hland)
      as (-> & Hw & evs2 & Hfr2 & Hset).
    destruct (Hev i _ Hi) as [Hstarted _].
    split; cbn; [by apply Forall_insert |].
    exists (evs ++ evs1 ++ evs2). split.
    { eapply refreshed_trans; [exact Hfr |].
      change (evs1 ++ evs2) with ([] ++ evs1 ++ evs2).
      eapply refreshed_trans; [apply refreshed_tick |].
      by eapply refreshed_trans. }
    intros j st0 Hj. destruct (decide (i = j)) as [<- | Hne].
    + rewrite list_lookup_insert_eq in Hj by (by eapply lookup_lt_Some).
      injection Hj as <-. split; intros H.
      * apply elem_of_app. left. by apply Hstarted.
      * apply elem_of_app. right. apply elem_of_app. right. by apply Hset.
    + rewrite list_lookup_insert_ne in Hj by done.
      destruct (Hev j st0 Hj) as [H1 H2].
      split; intros H; apply elem_of_app; left; auto.
Qed.

Lemma pool_ok_run w0 sched pl pl' :
  pool_ok w0 pl -> pool_run svc sched pl = Some pl' ->
  pool_ok w0 pl' /\ length (slots pl') = length (slots pl).
Proof.
  revert pl. induction sched as [|a sched IH]; intros pl Hok Hrun; cbn in Hrun.
  - injection Hrun as <-. by split.
  - destruct (pool_step svc a pl) as [pl1 |] eqn:Hstep; [| discriminate].
    cbn in Hrun. destruct (pool_ok_step _ _ _ _ Hok Hstep) as [Hok1 Hlen1].
    destruct (IH pl1 Hok1 Hrun) as [Hok' Hlen']. split; [done | congruence].
Qed.

(** When the gather returns, every one of its tasks has started and has
    settled, and nothing but the tasks has run. *)
Lemma run_gather_refreshed limit tasks sched w r w' :
  Forall refreshing tasks ->
  run_gather svc limit tasks sched w = Some (r, w') ->
  exists evs,
    refreshed w w' evs
    /\ forall i, i < length tasks ->
         EvTaskStart i ∈ evs /\ EvTaskSettled i ∈ evs.
Proof.
  intros Htasks Hrun. unfold run_gather in Hrun.
  destruct (pool_run svc sched (pool_init limit tasks w)) as [pl |] eqn:Hpool;
    [| discriminate].
  cbn in Hrun. destruct (all_settled pl) eqn:Hall; [| discriminate].
  injection Hrun as <- <-.
  destruct (pool_ok_run _ _ _ _ (pool_ok_init limit tasks w Htasks) Hpool)
    as [(_ & evs & Hfr & Hev) Hlen].
  exists evs. split; [exact Hfr |]. intros i Hi.
  cbn in Hlen. rewrite length_fmap in Hlen.
  destruct (lookup_lt_is_Some_2 (slots pl) i) as [st Hst]; [lia |].
  assert (Hset : is_settled st = true).
  { unfold all_settled in Hall. rewrite forallb_forall in Hall.
    apply Hall. apply list_elem_of_In. by eapply list_elem_of_lookup_2. }
  destruct (Hev i st Hst) as [H1 H2]. split; [| by apply H2].
  apply H1. by destruct st.
Qed.

(** A setup that returns [True] has gone through the login, the discovery
    and the gather. *)
Lemma setup_entry_true_run sched entry w w' :
  run svc sched (async_setup_entry entry) w = Some (Returned true, w') ->
  exists client tiles evs,
    svc _ (async_login (CONF_USERNAME entry) (CONF_PASSWORD entry)) (clock w)
    = Ok client
    /\ svc _ (async_get_tiles client) (S (clock w)) = Ok tiles
    /\ DATA_TILE w' = <[entry_id entry := tiles]> (DATA_TILE w)
    /\ built (DATA_COORDINATOR w')
       = built (<[entry_id entry := new_coordinator client <$> tiles]>
                  (DATA_COORDINATOR w))
    /\ trace w'
       = trace w
         ++ migration_events entry
              (List.filter (old_format entry) (map_to_list (entities w)))
         ++ [EvLogin (CONF_USERNAME entry); EvGetTiles]
         ++ (EvCoordinator <$> (map_to_list tiles).*1)
         ++ evs
         ++ [EvSetupPlatforms (entry_id entry) PLATFORMS]
    /\ forallb task_event evs = true
    /\ forall i, i < size tiles ->
         EvTaskStart i ∈ evs /\ EvTaskSettled i ∈ evs.
Proof.
  intros Hrun.
  destruct (setup_entry_true_inv svc sched entry w w' Hrun)
    as (client & tiles & Hlogin & Htiles).
  destruct (setup_entry_launch svc sched entry w client tiles Hlogin Htiles)
    as (w3 & _ & Ht3 & Hc3 & Htr3 & _ & Hrun').
  rewrite Hrun in Hrun'.
  destruct (run_gather svc DEFAULT_INIT_TASK_LIMIT
              (refresh_tasks entry client (map_to_list tiles)) sched w3)
    as [[[[] | e] w4] |] eqn:Hgather; try discriminate.
  injection Hrun' as ->.
  destruct (run_gather_refreshed _ _ _ _ _ _
              (refreshing_refresh_tasks entry client (map_to_list tiles)) Hgather)
    as (evs & (_ & Ht4 & Hc4 & Htr4 & Hev4) & Hall).
  exists client, tiles, evs. split; [exact Hlogin |]. split; [exact Htiles |].
  cbn [emit DATA_TILE DATA_COORDINATOR trace].
  split; [by rewrite Ht4, Ht3 |]. split; [by rewrite Hc4, Hc3 |].
  split; [rewrite Htr4, Htr3; by rewrite <- !app_assoc |].
  split; [exact Hev4 |].
  intros i Hi. apply Hall.
  unfold refresh_tasks. by rewrite length_fmap, length_map_to_list.
Qed.

End Refreshing.

(** C4.  After a setup that returned [True], the coordinator mapping of the
    entry has exactly the keys of the discovered tiles, and the coordinator
    under the key of a tile is named after that tile, polls every two
    minutes (120 seconds) and updates that tile. *)
Theorem setup_entry_one_coordinator_per_tile (svc : Service) sched entry w w' :
  run svc sched (async_setup_entry entry) w = Some (Returned true, w') ->
  exists client tiles cs,
    svc _ (async_login (CONF_USERNAME entry) (CONF_PASSWORD entry)) (clock w)
    = Ok client
    /\ svc _ (async_get_tiles client) (S (clock w)) = Ok tiles
    /\ DATA_TILE w' !! entry_id entry = Some tiles
    /\ DATA_COORDINATOR w' !! entry_id entry = Some cs
    /\ dom cs = dom tiles
    /\ forall uuid tile,
         tiles !! uuid = Some tile ->
         exists c,
           cs !! uuid = Some c
           /\ name c = tile_name tile
           /\ update_interval c = DEFAULT_UPDATE_INTERVAL
           /\ DEFAULT_UPDATE_INTERVAL = timedelta 2
           /\ DEFAULT_UPDATE_INTERVAL = 120%Z
           /\ update_method c = {| bound_client := client; bound_tile := tile |}.
Proof.
  intros Hrun.
  destruct (setup_entry_true_run svc sched entry w w' Hrun)
    as (client & tiles & evs & Hlogin & Htiles & Ht & Hc & _).
  apply (f_equal (fun m => m !! entry_id entry)) in Hc.
  unfold built in Hc. rewrite !lookup_fmap, lookup_insert_eq in Hc.
  destruct (DATA_COORDINATOR w' !! entry_id entry) as [cs |]; [| discriminate].
  cbn in Hc. injection Hc as Hcs.
  exists client, tiles, cs. split; [exact Hlogin |]. split; [exact Htiles |].
  split; [rewrite Ht; apply lookup_insert_eq |]. split; [reflexivity |].
  split.
  { apply (f_equal dom) in Hcs. by rewrite !dom_fmap_L in Hcs. }
  intros uuid tile Huuid.
  apply (f_equal (fun m => m !! uuid)) in Hcs.
  rewrite !lookup_fmap, Huuid in Hcs. cbn in Hcs.
  destruct (cs !! uuid) as [c |]; [| discriminate].
  injection Hcs as Hname Hinterval Hmethod.
  exists c. by repeat split.
Qed.

Lemma setup_entry_one_coordinator_per_tile_witness :
  exists cs c,
    DATA_COORDINATOR Sample.loaded !! "e1" = Some cs
    /\ dom cs = dom Sample.tiles
    /\ cs !! "t2" = Some c
    /\ name c = "Wallet"
    /\ update_interval c = 120%Z.
Proof.
  assert (Hrun : run Sample.service Sample.schedule
                   (async_setup_entry Sample.alice) Sample.world
                 = Some (Returned true, Sample.loaded))
    by (vm_compute; reflexivity).
  destruct (setup_entry_one_coordinator_per_tile Sample.service Sample.schedule
              Sample.alice Sample.world Sample.loaded Hrun)
    as (client & tiles & cs & _ & Htiles & _ & Hcs & Hdom & Hall).
  clear Hrun.
  change (Ok Sample.tiles = Ok tiles) in Htiles.
  assert (Heq : tiles = Sample.tiles) by congruence.
  rewrite Heq in Hdom, Hall. clear Htiles Heq.
  destruct (Hall "t2" {| tile_uuid := "t2"; tile_name := "Wallet" |})
    as (c & Hc & Hname & Hinterval & _ & Hseconds & _);
    [vm_compute; reflexivity |].
  rewrite Hseconds in Hinterval.
  exists cs, c. exact (conj Hcs (conj Hdom (conj Hc (conj Hname Hinterval)))).
Defined.

(** C8.  The trace of a setup that returned [True]: the updates of the
    migration, then the login, then the discovery, then the creation of one
    coordinator per tile, then the events of the refresh tasks, among them
    the start and the end of every task, and last the handoff to the
    platforms. *)
Theorem setup_entry_in_order (svc : Service) sched entry w w' :
  run svc sched (async_setup_entry entry) w = Some (Returned true, w') ->
  exists client tiles batch,
    svc _ (async_login (CONF_USERNAME entry) (CONF_PASSWORD entry)) (clock w)
    = Ok client
    /\ svc _ (async_get_tiles client) (S (clock w)) = Ok tiles
    /\ trace w'
       = trace w
         ++ migration_events entry
              (List.filter (old_format entry) (map_to_list (entities w)))
         ++ [EvLogin (CONF_USERNAME entry); EvGetTiles]
         ++ (EvCoordinator <$> (map_to_list tiles).*1)
         ++ batch
         ++ [EvSetupPlatforms (entry_id entry) PLATFORMS]
    /\ forallb task_event batch = true
    /\ forall i, i < size tiles ->
         EvTaskStart i ∈ batch /\ EvTaskSettled i ∈ batch.
Proof.
  intros Hrun.
  destruct (setup_entry_true_run svc sched entry w w' Hrun)
    as (client & tiles & evs & Hlogin & Htiles & _ & _ & Htr & Hev & Hall).
  exists client, tiles, evs. auto.
Qed.

Lemma setup_entry_in_order_witness :
  exists client tiles batch,
    Sample.service _ (async_login "alice" "pw") 0 = Ok client
    /\ Sample.service _ (async_get_tiles client) 1 = Ok tiles
    /\ trace Sample.loaded
       = []
         ++ migration_events Sample.alice
              (List.filter (old_format Sample.alice)
                 (map_to_list Sample.registry))
         ++ [EvLogin "alice"; EvGetTiles]
         ++ (EvCoordinator <$> (map_to_list tiles).*1)
         ++ batch
         ++ [EvSetupPlatforms "e1" ["device_tracker"]]
    /\ forallb task_event batch = true
    /\ forall i, i < size tiles ->
         EvTaskStart i ∈ batch /\ EvTaskSettled i ∈ batch.
Proof.
  apply (setup_entry_in_order Sample.service Sample.schedule Sample.alice
           Sample.world Sample.loaded).
  vm_compute. reflexivity.
Defined.

(** The trace of the setup of the sample account. *)
Example sample_trace :
  trace Sample.loaded
  = [EvLog DEBUG
       "Migrating entity %s from old unique ID '%s' to new unique ID '%s'"
       ["device_tracker.keys"; "tile_t1"; "alice_t1"];
     EvUpdateEntity "device_tracker.keys" "alice_t1";
     EvLog DEBUG
       "Migrating entity %s from old unique ID '%s' to new unique ID '%s'"
       ["device_tracker.car"; "tile_tile_t5"; "alice_alice_t5"];
     EvUpdateEntity "device_tracker.car" "alice_alice_t5";
     EvLog DEBUG
       "Migrating entity %s from old unique ID '%s' to new unique ID '%s'"
       ["device_tracker.bike"; "xtile_t4"; "xalice_t4"];
     EvUpdateEntity "device_tracker.bike" "xalice_t4";
     EvLogin "alice"; EvGetTiles;
     EvCoordinator "t3"; EvCoordinator "t1"; EvCoordinator "t2";
     EvTaskStart 0; EvTileUpdate "t3";
     EvTaskStart 1; EvTileUpdate "t1";
     EvTaskSettled 1;
     EvTaskStart 2; EvTileUpdate "t2";
     EvLog INFO "Tile session expired; creating a new one" []; EvClientInit;
     EvTaskSettled 0;
     EvTaskSettled 2;
     EvSetupPlatforms "e1" ["device_tracker"]].
Proof. vm_compute. reflexivity. Qed.

(** * Further properties of the component *)

(** ** The migration step *)

(** X1.  The separator of the split is never empty, so the loop always
    has a new unique id to ask for.  The migration step returns or raises
    the [ValueError] of the registry; either way it has awaited no call,
    and it has kept the set of entity ids, the config entry of every entity
    and the two mappings of the component.  On a registry that refuses none
    of the updates it returns. *)
Theorem migration_keeps_the_rest (svc : Service) (sched : list Action) entry w :
  (forall e, is_Some (new_unique_id entry e))
  /\ exists r w',
       run svc sched (checked_migrate_unique_ids entry) w = Some (r, w')
       /\ (r = Returned tt \/ exists msg, r = Raised (ValueError msg))
       /\ (registry_accepts entry (entities w) = true -> r = Returned tt)
       /\ dom (entities w') = dom (entities w)
       /\ (config_entry_id <$> entities w') = (config_entry_id <$> entities w)
       /\ DATA_COORDINATOR w' = DATA_COORDINATOR w
       /\ DATA_TILE w' = DATA_TILE w
       /\ clock w' = clock w.
Proof.
  split; [intros e; rewrite new_unique_id_renamed; eauto |].
  destruct (run_checked_migrate_unique_ids svc entry sched w)
    as (r & w' & done & rest & evs & Hrun & Hl & Hr & He & _ & Hc & Ht & Hclk & _).
  assert (Hdone : forall k e,
            (list_to_map done : gmap string RegistryEntry) !! k = Some e ->
            entities w !! k = Some e).
  { intros k e Hin%elem_of_list_to_map_2.
    apply (selected_spec entry). rewrite Hl. apply elem_of_app. by left. }
  exists r, w'. split; [exact Hrun |]. split.
  { destruct r as [[] | x]; [by left | right]. destruct Hr as [msg ->]. eauto. }
  split.
  { intros Hacc.
    destruct (run_checked_accepted svc entry sched w Hacc) as (w2 & Hrun2 & _).
    congruence. }
  split.
  { apply set_eq. intros k. rewrite !elem_of_dom, He.
    destruct (list_to_map done !! k) as [e |] eqn:Hk; [| done].
    rewrite (Hdone k e Hk). split; eauto. }
  split; [| done].
  apply map_eq. intros k. rewrite !lookup_fmap, He.
  destruct (list_to_map done !! k) as [e |] eqn:Hk; [| done].
  by rewrite (Hdone k e Hk).
Qed.

(** X2.  An entity of another config entry is left as it is, whatever its
    unique id. *)
Theorem migration_skips_other_entries (svc : Service) (sched : list Action)
    entry w k e :
  entities w !! k = Some e ->
  config_entry_id e <> Some (entry_id entry) ->
  exists w',
    run svc sched (migrate_unique_ids entry) w = Some (Returned tt, w')
    /\ entities w' !! k = Some e.
Proof.
  intros Hk Hother.
  destruct (run_migrate_unique_ids svc entry sched w) as (w' & Hrun & He & _).
  exists w'. split; [exact Hrun |].
  rewrite He, lookup_fmap, Hk. cbn. unfold migrated, old_format. cbn [snd].
  by rewrite bool_decide_eq_false_2.
Qed.

Lemma migration_skips_other_entries_witness :
  exists w',
    run Sample.service [] (migrate_unique_ids Sample.alice) Sample.world
    = Some (Returned tt, w')
    /\ entities w' !! "sensor.other"
       = Some {| unique_id := "tile_t9"; config_entry_id := Some "e2" |}.
Proof.
  apply (migration_skips_other_entries Sample.service [] Sample.alice Sample.world).
  - vm_compute. reflexivity.
  - discriminate.
Defined.

Lemma migration_events_update entry items k new_id :
  EvUpdateEntity k new_id ∈ migration_events entry items
  <-> exists e, (k, e) ∈ items /\ new_id = renamed entry (unique_id e).
Proof.
  unfold migration_events. rewrite list_elem_of_bind. split.
  - intros ([k' e] & Hev & Hin). cbn in Hev.
    apply elem_of_cons in Hev as [Hev | Hev]; [discriminate |].
    apply elem_of_cons in Hev as [Hev | Hev];
      [| by apply not_elem_of_nil in Hev].
    injection Hev as -> ->. by exists e.
  - intros (e & Hin & ->). exists (k, e). split; [| done].
    cbn. apply elem_of_cons. right. apply elem_of_cons. by left.
Qed.

(** X3.  In the migration step the registry updates no entity but those
    of this entry whose unique id does not start with the username, and
    each of them to no other id than the one the split and join give.  When
    the step returns, every one of them has been updated. *)
Theorem migration_updates_selected_only (svc : Service) (sched : list Action)
    entry w :
  exists r w' evs,
    run svc sched (checked_migrate_unique_ids entry) w = Some (r, w')
    /\ trace w' = trace w ++ evs
    /\ (forall k new_id,
          EvUpdateEntity k new_id ∈ evs ->
          exists e,
            entities w !! k = Some e
            /\ config_entry_id e = Some (entry_id entry)
            /\ PyStr.startswith (unique_id e) (CONF_USERNAME entry) = false
            /\ new_id = renamed entry (unique_id e)
            /\ entities w' !! k
               = Some {| unique_id := new_id;
                         config_entry_id := config_entry_id e |})
    /\ (r = Returned tt ->
        forall k e,
          entities w !! k = Some e ->
          config_entry_id e = Some (entry_id entry) ->
          PyStr.startswith (unique_id e) (CONF_USERNAME entry) = false ->
          EvUpdateEntity k (renamed entry (unique_id e)) ∈ evs).
Proof.
  destruct (run_checked_migrate_unique_ids svc entry sched w)
    as (r & w' & done & rest & evs & Hrun & Hl & Hr & He & _ & _ & _ & _
        & Htr & Hev).
  assert (Hsel : forall k e,
            (k, e) ∈ done ++ rest
            <-> entities w !! k = Some e
                /\ config_entry_id e = Some (entry_id entry)
                /\ PyStr.startswith (unique_id e) (CONF_USERNAME entry) = false).
  { intros k e. rewrite <- Hl, selected_spec. unfold old_format. cbn [snd].
    rewrite andb_true_iff, bool_decide_eq_true, negb_true_iff. tauto. }
  assert (Hkeys : NoDup done.*1).
  { assert (Hnd : NoDup (done ++ rest).*1)
      by (rewrite <- Hl; apply NoDup_fst_filter, NoDup_fst_map_to_list).
    rewrite fmap_app in Hnd. by apply NoDup_app in Hnd as [Hnd _]. }
  exists r, w', evs. split; [exact Hrun |]. split; [exact Htr |]. split.
  - intros k new_id (e & Hin & ->)%Hev.
    assert (Hin' : (k, e) ∈ done ++ rest) by (apply elem_of_app; by left).
    apply Hsel in Hin' as (Hk & Hcfg & Hnew). exists e.
    repeat split; try done.
    rewrite He. by rewrite (elem_of_list_to_map_1 done k e Hkeys Hin).
  - intros -> k e Hk Hcfg Hnew. apply Hev. exists e. split; [| done].
    assert (Hin : (k, e) ∈ done ++ rest) by (apply Hsel; tauto).
    rewrite Hr, app_nil_r in Hin. exact Hin.
Qed.

(** X4.  For an entity whose unique id holds no [tile_], the split and join
    give the unique id it already has, and the entity is as it was stored
    after the migration step, whatever the outcome of the step.  When such
    an entity is one of those of the entry whose unique id does not start
    with the username, the step does not return: it raises the [ValueError]
    of the registry. *)
Theorem migration_keeps_ids_without_domain (svc : Service) (sched : list Action)
    entry w k e :
  entities w !! k = Some e ->
  PyStr.contains (unique_id e) (DOMAIN +:+ "_") = false ->
  new_unique_id entry e = Some (unique_id e)
  /\ exists r w',
       run svc sched (checked_migrate_unique_ids entry) w = Some (r, w')
       /\ entities w' !! k = Some e
       /\ (old_format entry (k, e) = true -> exists msg, r = Raised (ValueError msg)).
Proof.
  intros Hk Habs.
  assert (Hsame : renamed entry (unique_id e) = unique_id e)
    by apply (renamed_absent _ _ Habs).
  split; [by rewrite new_unique_id_renamed, Hsame |].
  destruct (run_checked_migrate_unique_ids svc entry sched w)
    as (r & w' & done & rest & evs & Hrun & Hl & Hr & He & Hdone & _).
  assert (Hnot : (k, e) ∉ done) by (intros Hin; by apply (Hdone k e Hin)).
  exists r, w'. split; [exact Hrun |]. split.
  - rewrite He. destruct (list_to_map done !! k) as [e0 |] eqn:Hin; [| exact Hk].
    apply elem_of_list_to_map_2 in Hin. exfalso. apply Hnot.
    assert (Hin' : (k, e0) ∈ List.filter (old_format entry)
                                (map_to_list (entities w)))
      by (rewrite Hl; apply elem_of_app; by left).
    apply selected_spec in Hin' as [Hk0 _]. congruence.
  - intros Hold. destruct r as [[] | x].
    + exfalso. apply Hnot.
      assert (Hin : (k, e) ∈ done ++ rest) by (rewrite <- Hl; by apply selected_spec).
      rewrite Hr, app_nil_r in Hin. exact Hin.
    + destruct Hr as [msg ->]. eauto.
Qed.

Lemma migration_keeps_ids_without_domain_witness :
  new_unique_id Sample.alice
    {| unique_id := "bike_t4"; config_entry_id := Some "e1" |} = Some "bike_t4"
  /\ exists r w',
       run Sample.service [] (checked_migrate_unique_ids Sample.alice)
         Sample.stubborn
       = Some (r, w')
       /\ entities w' !! "device_tracker.bike"
          = Some {| unique_id := "bike_t4"; config_entry_id := Some "e1" |}
       /\ (old_format Sample.alice
             ("device_tracker.bike",
              {| unique_id := "bike_t4"; config_entry_id := Some "e1" |}) = true ->
           exists msg, r = Raised (ValueError msg)).
Proof.
  apply (migration_keeps_ids_without_domain Sample.service [] Sample.alice
           Sample.stubborn "device_tracker.bike").
  - vm_compute. reflexivity.
  - vm_compute. reflexivity.
Defined.

(** X17.  When the unique ids the migration loop asks for are pairwise
    different and none of them is stored in the registry, the registry that
    refuses a unique id in use refuses none of the updates of the loop: the
    loop returns, in the same state and with the same trace as against a
    registry that carries out every update, which is the registry with
    every entity in its [migrated] form. *)
Theorem checked_migration_agrees (svc : Service) sched entry w :
  registry_accepts entry (entities w) = true ->
  exists w',
    run svc sched (checked_migrate_unique_ids entry) w = Some (Returned tt, w')
    /\ run svc sched (migrate_unique_ids entry) w = Some (Returned tt, w')
    /\ entities w' = migrated entry <$> entities w.
Proof.
  intros Hacc.
  destruct (run_migrate_unique_ids svc entry sched w) as (w' & Hrun & He & _).
  exists w'. split; [| by split].
  by rewrite (run_checked_free svc entry sched w Hacc).
Qed.

Lemma checked_migration_agrees_witness :
  registry_accepts Sample.alice (entities Sample.world) = true
  /\ exists w',
       run Sample.service [] (checked_migrate_unique_ids Sample.alice)
         Sample.world
       = Some (Returned tt, w')
       /\ run Sample.service [] (migrate_unique_ids Sample.alice) Sample.world
          = Some (Returned tt, w')
       /\ entities w' = migrated Sample.alice <$> entities Sample.world.
Proof.
  split; [vm_compute; reflexivity |].
  apply checked_migration_agrees. vm_compute. reflexivity.
Defined.

(** ** The two string operations of the migration *)

Lemma length_app_str (a b : string) :
  String.length (a +:+ b) = String.length a + String.length b.
Proof.
  induction a as [|c a IH]; [done |].
  rewrite app_cons. cbn [String.length]. by rewrite IH.
Qed.

Lemma join_cons_char sep c piece pieces :
  PyStr.join sep (String c piece :: pieces)
  = String c (PyStr.join sep (piece :: pieces)).
Proof. destruct pieces; [done |]. cbn [PyStr.join]. by rewrite app_cons. Qed.

Lemma join_split_scan c sep n :
  forall s,
    String.length s <= n ->
    PyStr.join (String c sep) (PyStr.split_scan (String c sep) 0 s) = s.
Proof.
  induction n as [|n IH]; intros s Hlen.
  - destruct s; [done | cbn in Hlen; lia].
  - destruct s as [|d s]; [done |].
    destruct (String.prefix (String c sep) (String d s)) eqn:Hpre.
    + destruct (prefix_split _ _ Hpre) as [rest Hs]. rewrite Hs.
      rewrite split_scan_sep, join_cons_empty by apply split_scan_nonempty.
      rewrite IH; [done |].
      assert (Hl : String.length (String d s)
                   = String.length (String c sep) + String.length rest)
        by (by rewrite Hs, length_app_str).
      cbn [String.length] in Hl, Hlen. lia.
    + cbn [PyStr.split_scan]. rewrite Hpre.
      pose proof (split_scan_nonempty (String c sep) 0 s) as Hne.
      cbn [String.length] in Hlen. specialize (IH s ltac:(lia)).
      destruct (PyStr.split_scan (String c sep) 0 s) as [|piece pieces];
        [done |].
      by rewrite join_cons_char, IH.
Qed.

(** X5.  Joining the pieces of a split with the separator of the split
    gives the string back: [sep.join(s.split(sep)) == s].  An empty
    separator is refused by the split. *)
Theorem join_split (s sep : string) :
  match PyStr.split s sep with
  | Some pieces => PyStr.join sep pieces = s /\ pieces <> []
  | None => sep = ""
  end.
Proof.
  destruct sep as [|c sep]; [done |]. cbn [PyStr.split]. split.
  - by apply (join_split_scan c sep (String.length s)).
  - apply split_scan_nonempty.
Qed.

(** ** Setup that ends at the login or the discovery *)

Lemma failure_outcome_state err w :
  (forall client, (failure_outcome err w).1 <> Returned (Some client))
  /\ entities (failure_outcome err w).2 = entities w
  /\ DATA_COORDINATOR (failure_outcome err w).2 = DATA_COORDINATOR w
  /\ DATA_TILE (failure_outcome err w).2 = DATA_TILE w
  /\ clock (failure_outcome err w).2 = clock w.
Proof. unfold failure_outcome. by destruct (err_class err). Qed.

(** X6.  When the login or the discovery fails, with whatever error, setup
    does not return [True], and it leaves behind: the registry as the
    migration step made it, and an empty coordinator mapping and an empty
    tile mapping for the entry, in place of what was stored for it before;
    the mappings of the other entries are as they were. *)
Theorem setup_entry_failure_state (svc : Service) sched entry w err :
  let login := async_login (CONF_USERNAME entry) (CONF_PASSWORD entry) in
  svc _ login (clock w) = Fail err
  \/ (exists client,
        svc _ login (clock w) = Ok client
        /\ svc _ (async_get_tiles client) (S (clock w)) = Fail err) ->
  exists r w',
    run svc sched (async_setup_entry entry) w = Some (r, w')
    /\ r <> Returned true
    /\ entities w' = migrated entry <$> entities w
    /\ DATA_COORDINATOR w' = <[entry_id entry := ∅]> (DATA_COORDINATOR w)
    /\ DATA_TILE w' = <[entry_id entry := ∅]> (DATA_TILE w).
Proof.
  intros login Hfail.
  destruct (run_async_setup_entry svc sched entry w)
    as (w1 & He & Hc & Ht & Hclk & _ & -> & _).
  rewrite run_login_and_discover, Hclk. fold login.
  assert (Hout : forall w2,
            entities w2 = entities w1 ->
            DATA_COORDINATOR w2 = DATA_COORDINATOR w1 ->
            DATA_TILE w2 = DATA_TILE w1 ->
            exists r w',
              match failure_outcome err w2 with
              | (Returned None, w3) => Some (Returned false, w3)
              | (Returned (Some client), w3) =>
                  run svc sched (start_coordinators entry client) w3
              | (Raised e, w3) => Some (Raised e, w3)
              end = Some (r, w')
              /\ r <> Returned true
              /\ entities w' = migrated entry <$> entities w
              /\ DATA_COORDINATOR w' = <[entry_id entry := ∅]> (DATA_COORDINATOR w)
              /\ DATA_TILE w' = <[entry_id entry := ∅]> (DATA_TILE w)).
  { intros w2 He2 Hc2 Ht2.
    destruct (failure_outcome_state err w2) as (Hno & He3 & Hc3 & Ht3 & _).
    destruct (failure_outcome err w2) as [[[client |] | e] w3]; cbn in *.
    - by destruct (Hno client).
    - eexists _, _. split; [reflexivity |].
      by rewrite He3, Hc3, Ht3, He2, Hc2, Ht2, He, Hc, Ht.
    - eexists _, _. split; [reflexivity |].
      by rewrite He3, Hc3, Ht3, He2, Hc2, Ht2, He, Hc, Ht. }
  destruct Hfail as [-> | (client & -> & ->)]; by apply Hout.
Qed.

Lemma setup_entry_failure_state_witness :
  exists r w',
    run (Sample.failing Sample.unreachable) [] (async_setup_entry Sample.alice)
        Sample.loaded = Some (r, w')
    /\ r <> Returned true
    /\ entities w' = migrated Sample.alice <$> entities Sample.loaded
    /\ DATA_COORDINATOR w' = <["e1" := ∅]> (DATA_COORDINATOR Sample.loaded)
    /\ DATA_TILE w' = <["e1" := ∅]> (DATA_TILE Sample.loaded).
Proof.
  apply (setup_entry_failure_state (Sample.failing Sample.unreachable) []
           Sample.alice Sample.loaded Sample.unreachable).
  left. reflexivity.
Defined.

(** X7.  After a failed login the discovery is not attempted and nothing is
    handed to the platforms: one call has been awaited, and the events
    since the start are those of the migration, the login and, for invalid
    credentials only, the error that is logged. *)
Theorem setup_entry_login_failure_trace (svc : Service) sched entry w err :
  svc _ (async_login (CONF_USERNAME entry) (CONF_PASSWORD entry)) (clock w)
  = Fail err ->
  exists r w',
    run svc sched (async_setup_entry entry) w = Some (r, w')
    /\ clock w' = S (clock w)
    /\ trace w'
       = trace w
         ++ migration_events entry
              (List.filter (old_format entry) (map_to_list (entities w)))
         ++ EvLogin (CONF_USERNAME entry)
            :: match err_class err with
               | InvalidAuthError => [EvLog ERROR "Invalid credentials provided" []]
               | _ => []
               end.
Proof.
  intros Hfail.
  destruct (run_async_setup_entry svc sched entry w)
    as (w1 & _ & _ & _ & Hclk & Htr & -> & _).
  rewrite run_login_and_discover, Hclk, Hfail. unfold failure_outcome.
  destruct (err_class err); eexists _, _; (split; [reflexivity |]); cbn;
    rewrite Hclk, Htr, <- ?app_assoc; done.
Qed.

Lemma setup_entry_login_failure_trace_witness :
  exists r w',
    run (Sample.failing Sample.bad_password) [] (async_setup_entry Sample.alice)
        Sample.world = Some (r, w')
    /\ clock w' = 1
    /\ trace w'
       = migration_events Sample.alice
           (List.filter (old_format Sample.alice) (map_to_list Sample.registry))
         ++ [EvLogin "alice"; EvLog ERROR "Invalid credentials provided" []].
Proof.
  destruct (setup_entry_login_failure_trace (Sample.failing Sample.bad_password)
              [] Sample.alice Sample.world Sample.bad_password)
    as (r & w' & Hrun & Hclk & Htr); [reflexivity |].
  exists r, w'. split; [exact Hrun |]. split; [exact Hclk |]. exact Htr.
Defined.

(** X8.  An error of the login or of the discovery that is not of the
    client library's hierarchy is handled by neither [except] clause: it
    leaves setup as it was raised. *)
Theorem setup_entry_foreign_error (svc : Service) sched entry w err :
  let login := async_login (CONF_USERNAME entry) (CONF_PASSWORD entry) in
  svc _ login (clock w) = Fail err
  \/ (exists client,
        svc _ login (clock w) = Ok client
        /\ svc _ (async_get_tiles client) (S (clock w)) = Fail err) ->
  err_class err = OtherException ->
  exists w', run svc sched (async_setup_entry entry) w
             = Some (Raised (Upstream err), w').
Proof.
  intros login Hfail Hclass.
  destruct (run_async_setup_entry svc sched entry w)
    as (w1 & _ & _ & _ & Hclk & _ & -> & _).
  rewrite run_login_and_discover, Hclk. fold login.
  destruct Hfail as [-> | (client & -> & ->)];
    unfold failure_outcome; rewrite Hclass; eauto.
Qed.

Lemma setup_entry_foreign_error_witness :
  exists w',
    run (Sample.failing Sample.crash) [] (async_setup_entry Sample.alice)
        Sample.world = Some (Raised (Upstream Sample.crash), w').
Proof.
  apply (setup_entry_foreign_error (Sample.failing Sample.crash) []
           Sample.alice Sample.world Sample.crash).
  - left. reflexivity.
  - reflexivity.
Defined.

(** ** The update function of a tile, further *)

(** X9.  [async_update_tile] calls [tile.async_update()] exactly once,
    first; it then logs and calls [client.async_init()], once, if that call
    failed with a session-expired error, and does nothing more in every
    other case.  When the tile's call succeeds the function returns, with
    one call awaited. *)
Theorem update_tile_reinit_only_when_expired (svc : Service) sched client tile w :
  exists r w',
    run svc sched (async_update_tile client tile) w = Some (r, w')
    /\ trace w'
       = trace w
         ++ EvTileUpdate (tile_uuid tile)
            :: match svc unit (tile_async_update tile) (clock w) with
               | Fail {| err_class := SessionExpiredError |} =>
                   [EvLog INFO "Tile session expired; creating a new one" [];
                    EvClientInit]
               | _ => []
               end
    /\ clock w'
       = match svc unit (tile_async_update tile) (clock w) with
         | Fail {| err_class := SessionExpiredError |} => S (S (clock w))
         | _ => S (clock w)
         end
    /\ match svc unit (tile_async_update tile) (clock w) with
       | Ok _ => r = Returned tt
       | Fail _ => True
       end.
Proof.
  rewrite run_async_update_tile.
  destruct (svc unit (tile_async_update tile) (clock w)) as [[] | [cls msg]].
  - eexists _, _. split; [reflexivity |]. done.
  - destruct cls; eexists _, _; (split; [reflexivity |]); cbn;
      rewrite <- ?app_assoc; done.
Qed.

(** X10.  An error of [tile.async_update()] that is not of the client
    library's hierarchy is neither wrapped into [UpdateFailed] nor followed
    by a new session: it leaves the update function as it was raised. *)
Theorem update_tile_foreign_error (svc : Service) sched client tile w err :
  svc unit (tile_async_update tile) (clock w) = Fail err ->
  err_class err = OtherException ->
  exists w',
    run svc sched (async_update_tile client tile) w
    = Some (Raised (Upstream err), w')
    /\ trace w' = trace w ++ [EvTileUpdate (tile_uuid tile)].
Proof.
  intros Hreply Hclass. rewrite run_async_update_tile, Hreply, Hclass. eauto.
Qed.

Lemma update_tile_foreign_error_witness :
  exists w',
    run (Sample.failing Sample.crash) [] (async_update_tile Sample.alice_client
                                            Sample.keys) Sample.world
    = Some (Raised (Upstream Sample.crash), w')
    /\ trace w' = [EvTileUpdate "t1"].
Proof.
  apply (update_tile_foreign_error (Sample.failing Sample.crash) []
           Sample.alice_client Sample.keys Sample.world Sample.crash);
    reflexivity.
Defined.

(** ** Unloading, further *)

(** X11.  When the platforms unload but the component holds no coordinator
    mapping for the entry, for instance because the entry was unloaded
    before, the [pop] raises [KeyError] in place of the return, and the
    mappings are as they were. *)
Theorem unload_entry_missing_mapping (svc : Service) sched entry w :
  svc _ (async_unload_platforms entry PLATFORMS) (clock w) = Ok true ->
  DATA_COORDINATOR w !! entry_id entry = None ->
  exists w',
    run svc sched (async_unload_entry entry) w
    = Some (Raised (KeyError (entry_id entry)), w')
    /\ DATA_COORDINATOR w' = DATA_COORDINATOR w
    /\ DATA_TILE w' = DATA_TILE w.
Proof.
  intros Hreply Hcs. unfold async_unload_entry. cbn. rewrite Hreply. cbn.
  rewrite Hcs. cbn. eauto.
Qed.

Lemma unload_entry_missing_mapping_witness :
  exists w',
    run Sample.service [] (async_unload_entry Sample.alice) Sample.world
    = Some (Raised (KeyError "e1"), w')
    /\ DATA_COORDINATOR w' = ∅
    /\ DATA_TILE w' = ∅.
Proof.
  apply (unload_entry_missing_mapping Sample.service [] Sample.alice Sample.world);
    reflexivity.
Defined.

(** X12.  Whatever the platforms answer, unloading an entry asks them
    once, and it changes neither the registry, nor the tile mappings, nor
    the coordinator mapping of any other entry. *)
Theorem unload_entry_touches_nothing_else (svc : Service) sched entry w :
  exists r w',
    run svc sched (async_unload_entry entry) w = Some (r, w')
    /\ entities w' = entities w
    /\ DATA_TILE w' = DATA_TILE w
    /\ delete (entry_id entry) (DATA_COORDINATOR w')
       = delete (entry_id entry) (DATA_COORDINATOR w)
    /\ trace w' = trace w ++ [EvUnloadPlatforms (entry_id entry)].
Proof.
  unfold async_unload_entry. cbn.
  destruct (svc _ (async_unload_platforms entry PLATFORMS) (clock w))
    as [[|] | err]; cbn.
  - destruct (DATA_COORDINATOR w !! entry_id entry) eqn:Hcs; cbn.
    + eexists _, _. split; [reflexivity |]. cbn.
      by rewrite delete_delete_eq.
    + eexists _, _. split; [reflexivity |]. done.
  - eexists _, _. split; [reflexivity |]. done.
  - eexists _, _. split; [reflexivity |]. done.
Qed.

(** ** The coordinators at the launch of the initial refresh *)

(** X13.  After a successful login and discovery, when setup launches the
    initial refresh, the entry has one coordinator per discovered tile,
    under the tile's key; each is named after its own tile, polls every 120
    seconds, and its update method is bound to its own tile and to the
    client of this login.  The coroutines handed to the gather are the
    refreshes of these coordinators, one per tile in the order of the
    tiles, and the tile mapping of the entry is what the discovery
    returned. *)
Theorem setup_entry_binds_each_tile (svc : Service) entry w client tiles :
  svc _ (async_login (CONF_USERNAME entry) (CONF_PASSWORD entry)) (clock w)
  = Ok client ->
  svc _ (async_get_tiles client) (S (clock w)) = Ok tiles ->
  exists w3 cs,
    run_to_gather svc (async_setup_entry entry) w
    = Some (DEFAULT_INIT_TASK_LIMIT,
            (fun item =>
               async_refresh (entry_id entry) item.1
                 {| name := tile_name item.2;
                    update_interval := 120;
                    update_method :=
                      {| bound_client := client; bound_tile := item.2 |};
                    last_update_success := true |}) <$> map_to_list tiles,
            w3)
    /\ DATA_TILE w3 !! entry_id entry = Some tiles
    /\ DATA_COORDINATOR w3 !! entry_id entry = Some cs
    /\ dom cs = dom tiles
    /\ forall uuid tile,
         tiles !! uuid = Some tile ->
         cs !! uuid
         = Some {| name := tile_name tile;
                   update_interval := 120;
                   update_method := {| bound_client := client; bound_tile := tile |};
                   last_update_success := true |}.
Proof.
  intros Hlogin Htiles.
  destruct (setup_entry_launch svc [] entry w client tiles Hlogin Htiles)
    as (w3 & _ & Ht & Hc & _ & Hlaunch & _).
  exists w3, (new_coordinator client <$> tiles).
  split; [exact Hlaunch |].
  split; [rewrite Ht; apply lookup_insert_eq |].
  split; [rewrite Hc; apply lookup_insert_eq |].
  split; [apply dom_fmap_L |].
  intros uuid tile Huuid. by rewrite lookup_fmap, Huuid.
Qed.

Lemma setup_entry_binds_each_tile_witness :
  exists tasks w3 cs,
    run_to_gather Sample.service (async_setup_entry Sample.alice) Sample.world
    = Some (2, tasks, w3)
    /\ length tasks = 3
    /\ DATA_COORDINATOR w3 !! "e1" = Some cs
    /\ cs !! "t2"
       = Some {| name := "Wallet";
                 update_interval := 120;
                 update_method :=
                   {| bound_client := Sample.alice_client;
                      bound_tile := {| tile_uuid := "t2"; tile_name := "Wallet" |} |};
                 last_update_success := true |}.
Proof.
  destruct (setup_entry_binds_each_tile Sample.service Sample.alice Sample.world
              Sample.alice_client Sample.tiles)
    as (w3 & cs & Hlaunch & _ & Hcs & _ & Hbound);
    [reflexivity | reflexivity |].
  eexists _, w3, cs. split; [exact Hlaunch |].
  split; [rewrite length_fmap, length_map_to_list; vm_compute; reflexivity |].
  split; [exact Hcs |].
  apply (Hbound "t2" {| tile_uuid := "t2"; tile_name := "Wallet" |}).
  vm_compute. reflexivity.
Defined.

(** X14.  For an account without tiles, setup creates no coordinator, has
    no refresh to wait for, hands the entry to the platforms right after
    the discovery and returns [True]. *)
Theorem setup_entry_without_tiles (svc : Service) entry w client :
  svc _ (async_login (CONF_USERNAME entry) (CONF_PASSWORD entry)) (clock w)
  = Ok client ->
  svc _ (async_get_tiles client) (S (clock w)) = Ok ∅ ->
  exists w',
    run svc [] (async_setup_entry entry) w = Some (Returned true, w')
    /\ DATA_COORDINATOR w' !! entry_id entry = Some ∅
    /\ DATA_TILE w' !! entry_id entry = Some ∅
    /\ trace w'
       = trace w
         ++ migration_events entry
              (List.filter (old_format entry) (map_to_list (entities w)))
         ++ [EvLogin (CONF_USERNAME entry); EvGetTiles;
             EvSetupPlatforms (entry_id entry) PLATFORMS].
Proof.
  intros Hlogin Htiles.
  destruct (setup_entry_launch svc [] entry w client ∅ Hlogin Htiles)
    as (w3 & _ & Ht & Hc & Htr & _ & Hrun).
  rewrite map_to_list_empty in Hrun, Htr. cbn in Hrun, Htr.
  eexists. split; [exact Hrun |]. cbn.
  rewrite Ht, Hc, Htr, fmap_empty, !lookup_insert_eq.
  split; [done |]. split; [done |]. by rewrite <- !app_assoc.
Qed.

Lemma setup_entry_without_tiles_witness :
  exists w',
    run Sample.no_tiles [] (async_setup_entry Sample.alice) Sample.world
    = Some (Returned true, w')
    /\ DATA_COORDINATOR w' !! "e1" = Some ∅
    /\ DATA_TILE w' !! "e1" = Some ∅.
Proof.
  destruct (setup_entry_without_tiles Sample.no_tiles Sample.alice Sample.world
              Sample.alice_client)
    as (w' & Hrun & Hc & Ht & _); [reflexivity | reflexivity |].
  exists w'. exact (conj Hrun (conj Hc Ht)).
Defined.

(** X15.  [async_setup] empties both mappings of the component; the first
    entry that is set up after it is then the only one in them when its
    initial refresh is launched. *)
Theorem setup_entry_after_async_setup (svc : Service) sched entry w client tiles :
  svc _ (async_login (CONF_USERNAME entry) (CONF_PASSWORD entry)) (clock w)
  = Ok client ->
  svc _ (async_get_tiles client) (S (clock w)) = Ok tiles ->
  exists w0 tasks w3,
    run svc sched async_setup w = Some (Returned true, w0)
    /\ DATA_COORDINATOR w0 = ∅
    /\ DATA_TILE w0 = ∅
    /\ entities w0 = entities w
    /\ run_to_gather svc (async_setup_entry entry) w0
       = Some (DEFAULT_INIT_TASK_LIMIT, tasks, w3)
    /\ DATA_TILE w3 = {[ entry_id entry := tiles ]}
    /\ DATA_COORDINATOR w3
       = {[ entry_id entry := new_coordinator client <$> tiles ]}.
Proof.
  intros Hlogin Htiles.
  set (w0 := set_tiles (fun _ => ∅) (set_coordinators (fun _ => ∅) w)).
  destruct (setup_entry_launch svc [] entry w0 client tiles Hlogin Htiles)
    as (w3 & _ & Ht & Hc & _ & Hlaunch & _).
  exists w0. eexists _, w3. split; [reflexivity |].
  split; [done |]. split; [done |]. split; [done |].
  split; [exact Hlaunch |].
  rewrite Ht, Hc. cbn. by rewrite !insert_empty.
Qed.

Lemma setup_entry_after_async_setup_witness :
  exists w0 tasks w3,
    run Sample.service [] async_setup Sample.loaded = Some (Returned true, w0)
    /\ DATA_COORDINATOR w0 = ∅
    /\ run_to_gather Sample.service (async_setup_entry Sample.alice) w0
       = Some (2, tasks, w3)
    /\ DATA_TILE w3 = {[ "e1" := Sample.tiles ]}.
Proof.
  destruct (setup_entry_after_async_setup Sample.service [] Sample.alice
              Sample.loaded Sample.alice_client Sample.tiles)
    as (w0 & tasks & w3 & Hrun & Hc & _ & _ & Hlaunch & Ht & _);
    [reflexivity | reflexivity |].
  exists w0, tasks, w3. exact (conj Hrun (conj Hc (conj Hlaunch Ht))).
Defined.

(** ** Running the migration step again *)

Lemma filter_none {A} (P : A -> bool) (l : list A) :
  (forall x, x ∈ l -> P x = false) -> List.filter P l = [].
Proof.
  induction l as [|x l IH]; intros H; [done |]. cbn [List.filter].
  rewrite (H x) by (apply elem_of_cons; by left).
  apply IH. intros y Hy. apply H. apply elem_of_cons. by right.
Qed.

(** X16.  On a registry that refuses none of the updates, and in which
    every entity of the entry has a unique id that starts with the username
    or with [tile_], the migration step returns and a second run of it
    selects no entity: it returns, changes nothing and asks the registry
    for nothing. *)
Theorem migration_twice (svc : Service) sched entry w :
  registry_accepts entry (entities w) = true ->
  (forall k e,
     entities w !! k = Some e ->
     config_entry_id e = Some (entry_id entry) ->
     PyStr.startswith (unique_id e) (CONF_USERNAME entry) = true
     \/ PyStr.startswith (unique_id e) (DOMAIN +:+ "_") = true) ->
  exists w',
    run svc sched (checked_migrate_unique_ids entry) w = Some (Returned tt, w')
    /\ List.filter (old_format entry) (map_to_list (entities w')) = []
    /\ run svc sched (checked_migrate_unique_ids entry) w' = Some (Returned tt, w').
Proof.
  intros Hacc Hfmt.
  destruct (run_checked_accepted svc entry sched w Hacc) as (w' & Hrun & He & _).
  assert (Hdone : forall k e', entities w' !! k = Some e' ->
                               old_format entry (k, e') = false).
  { intros k e'. rewrite He, lookup_fmap.
    destruct (entities w !! k) as [e |] eqn:Hk; [| done].
    cbn. intros [= <-]. unfold migrated.
    destruct (old_format entry ("", e)) eqn:Hold; [| exact Hold].
    unfold old_format in Hold |- *. cbn [snd] in *.
    apply andb_true_iff in Hold as [Hcfg Hnew].
    apply bool_decide_eq_true in Hcfg. apply negb_true_iff in Hnew.
    destruct (Hfmt k e Hk Hcfg) as [Hu | Hd]; [congruence |].
    destruct (prefix_split _ _ Hd) as [rest Hid].
    cbn [rename_entity unique_id config_entry_id].
    rewrite Hid, app_assoc_str, renamed_old_format.
    rewrite (startswith_weaken _ (CONF_USERNAME entry) "_").
    - apply andb_false_r.
    - rewrite <- app_assoc_str. apply startswith_app. }
  assert (Hnone : List.filter (old_format entry) (map_to_list (entities w')) = []).
  { apply filter_none. intros [k e'] Hin.
    apply (Hdone k). by apply elem_of_map_to_list. }
  exists w'. split; [exact Hrun |]. split; [exact Hnone |].
  rewrite checked_migrate_unique_ids_unfold. by rewrite Hnone.
Qed.

Lemma migration_twice_witness :
  registry_accepts Sample.alice (entities Sample.tidy) = true
  /\ exists w',
       run Sample.service [] (checked_migrate_unique_ids Sample.alice) Sample.tidy
       = Some (Returned tt, w')
       /\ run Sample.service [] (checked_migrate_unique_ids Sample.alice) w'
          = Some (Returned tt, w').
Proof.
  assert (Hacc : registry_accepts Sample.alice (entities Sample.tidy) = true)
    by (vm_compute; reflexivity).
  split; [exact Hacc |].
  destruct (migration_twice Sample.service [] Sample.alice Sample.tidy)
    as (w' & Hrun & _ & Hrun').
  - exact Hacc.
  - intros k e Hk.
    refine (map_Forall_lookup_1
             (fun (_ : string) (e : RegistryEntry) =>
                config_entry_id e = Some (entry_id Sample.alice) ->
                PyStr.startswith (unique_id e) (CONF_USERNAME Sample.alice) = true
                \/ PyStr.startswith (unique_id e) (DOMAIN +:+ "_") = true)
             _ k e _ Hk).
    apply map_Forall_to_list.
    assert (Hl : map_to_list (entities Sample.tidy)
                 = [("sensor.other",
                     {| unique_id := "other_t9"; config_entry_id := Some "e2" |});
                    ("device_tracker.keys",
                     {| unique_id := "tile_t1"; config_entry_id := Some "e1" |});
                    ("device_tracker.bag",
                     {| unique_id := "alice_t3"; config_entry_id := Some "e1" |})])
      by (vm_compute; reflexivity).
    rewrite Hl.
    constructor; [cbn; intros H; discriminate H |].
    constructor; [cbn; intros _; by right |].
    constructor; [cbn; intros _; by left | constructor].
  - exists w'. exact (conj Hrun Hrun').
Defined.
